(** * Token ledger of the emoji generator: model and properties

    The development follows [src/server/database.js] (the SQLite-backed
    ledger) and the two request handlers of [src/server/server.js] that
    touch it: [POST /api/generate-emoji] and [POST /api/stripe-webhook].

    Modelling decisions, all of them visible in the definitions below:
    - the [users] table is a finite map keyed by [email] (the column is
      [UNIQUE NOT NULL]); [token_transactions] is a list in insertion order;
    - SQLite [INTEGER] columns and the JavaScript numbers bound to them are
      unbounded integers [Z]; the wall-clock columns [created_at] and
      [updated_at] are left out;
    - a promise is a value of [promise A]; an asynchronous database function
      is a state transformer that returns one;
    - a storage failure is decided by a schedule of flags carried by the
      store: every [db.get]/[db.run] that has a callback consumes one flag;
    - a statement submitted to the connection runs before any statement
      submitted later, so a fire-and-forget insert is executed in place;
    - a statement submitted without a callback that fails is an ['error']
      event nobody listens to: Node throws it and the process exits, which
      discards the transaction that is open;
    - a string that came over HTTP is held as the bytes of its UTF-8
      encoding. *)

From stdpp Require Import gmap strings list fin_maps.
From Stdlib Require Import ZArith Lia Ascii.
From Stdlib Require DecimalString DecimalPos DecimalZ.

Local Open Scope string_scope.
Local Open Scope Z_scope.

(** ** Promises and errors *)

Inductive js_error :=
| SQLITE_ERROR
| SQLITE_CONSTRAINT
| ReferenceError (identifier : string)
| Error (message : string)
| Uncaught.

Inductive promise (A : Type) :=
| Resolved (value : A)
| Rejected (err : js_error).
Arguments Resolved {A} value.
Arguments Rejected {A} err.

(** [Uncaught] is the error of a statement that had no callback: it is
    emitted as an ['error'] event, and with no listener the process exits.
    [Rejected Uncaught] therefore stands for a promise that is never settled:
    nothing that waits for it runs, and no [catch] sees it. *)

(** [error.message]. The message of an error reported by the engine is the
    result code followed by the engine's own text, as in
    [SQLITE_ERROR: no such table: users]; both depend on what went wrong
    inside the engine, which the failure schedule does not say:
    [engine_message] supplies the message. The one constraint of the schema
    an insert can violate is the [UNIQUE] on [users.email]. *)
Definition error_message (engine_message : string) (e : js_error) : string :=
  match e with
  | SQLITE_ERROR | Uncaught => engine_message
  | SQLITE_CONSTRAINT =>
      "SQLITE_CONSTRAINT: UNIQUE constraint failed: users.email"
  | ReferenceError x => x ++ " is not defined"
  | Error m => m
  end.

(** ** src/server/database.js *)

Module Database.

(** [type TEXT NOT NULL CHECK(type IN ('purchase','usage','refund','bonus'))] *)
Inductive transaction_type := purchase | usage | refund | bonus.

(** A row of [users]; the key [email] lives in the map. *)
Record user_row := {
  id : nat;
  tokens : Z;
  total_used : Z
}.

(** A row of [token_transactions]. *)
Record tx_row := {
  tx_id : nat;
  user_email : string;
  type : transaction_type;
  amount : Z;
  description : string;
  stripe_session_id : option string
}.

(** The connection: both tables, the snapshot taken by an open
    [BEGIN TRANSACTION] (restored by [ROLLBACK]), and the failure schedule. *)
Record db := {
  users : gmap string user_row;
  token_transactions : list tx_row;
  txn : option (gmap string user_row * list tx_row);
  faults : list bool
}.

Definition empty_db : db :=
  {| users := ∅; token_transactions := []; txn := None; faults := [] |}.

(** What [getUserTokens] resolves to ([createdAt] left out). *)
Record account := {
  balance : Z;
  totalUsed : Z
}.

Definition async (A : Type) : Type := db → promise A * db.

Definition resolve {A} (a : A) : async A := λ d, (Resolved a, d).
Definition reject {A} (e : js_error) : async A := λ d, (Rejected e, d).

(** [p.then(k)]: a rejection skips [k]. *)
Definition and_then {A B} (p : async A) (k : A → async B) : async B :=
  λ d, match p d with
       | (Resolved a, d') => k a d'
       | (Rejected e, d') => (Rejected e, d')
       end.

(** [db.run(sql, params, function (err) { ... })]: the callback sees the
    error or the result. *)
Definition with_callback {A B} (stmt : async A) (cb : promise A → async B)
  : async B :=
  λ d, let '(r, d') := stmt d in cb r d'.

(** [p.catch(console.error)] on a promise nobody awaits. *)
Definition forget {A} (p : async A) : async unit :=
  λ d, ((Resolved tt), snd (p d)).

(** The process exits: the connection goes away with it, and SQLite discards
    the transaction that was open. *)
Definition abandon (d : db) : db :=
  match txn d with
  | Some (us, l) =>
      {| users := us; token_transactions := l; txn := None;
         faults := faults d |}
  | None => d
  end.

(** [db.run(sql)], a statement submitted without a callback; [sql] answers
    [None] when the engine refuses it. The refusal has nowhere to go: it is
    emitted as an ['error'] event, the connection has no listener for it, and
    the process exits. *)
Definition exec (sql : db → option db) : async unit :=
  λ d, match sql d with
       | Some d' => (Resolved tt, d')
       | None => (Rejected Uncaught, abandon d)
       end.

Global Instance async_ret : MRet async := @resolve.
Global Instance async_bind : MBind async := λ A B k p, and_then p k.

(** *** Statements *)

Definition next_fault (d : db) : bool * db :=
  match faults d with
  | [] => (false, d)
  | f :: fs =>
      (f, {| users := users d; token_transactions := token_transactions d;
             txn := txn d; faults := fs |})
  end.

(** A statement with a callback: fails when the schedule says so. *)
Definition statement {A} (run : db → promise A * db) : async A :=
  λ d, let '(f, d') := next_fault d in
       if f then (Rejected SQLITE_ERROR, d') else run d'.

Definition set_users (us : gmap string user_row) (d : db) : db :=
  {| users := us; token_transactions := token_transactions d;
     txn := txn d; faults := faults d |}.

Definition set_log (l : list tx_row) (d : db) : db :=
  {| users := users d; token_transactions := l;
     txn := txn d; faults := faults d |}.

(** The same tables on a connection with failure schedule [fl]. *)
Definition with_faults (fl : list bool) (d : db) : db :=
  {| users := users d; token_transactions := token_transactions d;
     txn := txn d; faults := fl |}.

(** [BEGIN TRANSACTION]; on a connection that has a transaction open the
    engine refuses it ("cannot start a transaction within a transaction"). *)
Definition BEGIN_TRANSACTION (d : db) : option db :=
  match txn d with
  | Some _ => None
  | None =>
      Some {| users := users d; token_transactions := token_transactions d;
              txn := Some (users d, token_transactions d);
              faults := faults d |}
  end.

(** [COMMIT]; refused when no transaction is open ("cannot commit - no
    transaction is active"). *)
Definition COMMIT (d : db) : option db :=
  match txn d with
  | Some _ =>
      Some {| users := users d; token_transactions := token_transactions d;
              txn := None; faults := faults d |}
  | None => None
  end.

(** [ROLLBACK]; refused when no transaction is open ("cannot rollback - no
    transaction is active"). *)
Definition ROLLBACK (d : db) : option db :=
  match txn d with
  | Some (us, l) =>
      Some {| users := us; token_transactions := l; txn := None;
              faults := faults d |}
  | None => None
  end.

(** The row written by [VALUES (?, 25, 0)]; [id] is the next
    [AUTOINCREMENT] value (rows of [users] are never deleted). *)
Definition fresh_user (us : gmap string user_row) : user_row :=
  {| id := S (size us); tokens := 25; total_used := 0 |}.

(** [SET tokens = tokens - 1, total_used = total_used + 1] *)
Definition spend (r : user_row) : user_row :=
  {| id := id r; tokens := tokens r - 1; total_used := total_used r + 1 |}.

(** [SET tokens = tokens + ?] *)
Definition top_up (amt : Z) (r : user_row) : user_row :=
  {| id := id r; tokens := tokens r + amt; total_used := total_used r |}.

(** The row written by [INSERT INTO token_transactions]; [tx_id] is the next
    [AUTOINCREMENT] value. *)
Definition new_row (log : list tx_row) (userEmail : string)
    (ty : transaction_type) (amt : Z) (desc : string)
    (stripeSessionId : option string) : tx_row :=
  {| tx_id := S (length log); user_email := userEmail; type := ty;
     amount := amt; description := desc;
     stripe_session_id := stripeSessionId |}.

(** [SELECT * FROM users WHERE email = ?] *)
Definition select_user (email : string) : async (option user_row) :=
  statement (λ d, (Resolved (users d !! email), d)).

(** [INSERT INTO users (email, tokens, total_used) VALUES (?, 25, 0)] *)
Definition insert_user (email : string) : async unit :=
  statement (λ d,
    match users d !! email with
    | Some _ => (Rejected SQLITE_CONSTRAINT, d)
    | None =>
        (Resolved tt, set_users (<[email := fresh_user (users d)]> (users d)) d)
    end).

(** [UPDATE users SET tokens = tokens - 1, total_used = total_used + 1
     WHERE email = ? AND tokens > 0]; resolves to [this.changes]. *)
Definition update_deduct (email : string) : async nat :=
  statement (λ d,
    match users d !! email with
    | Some r =>
        if bool_decide (0 < tokens r)
        then (Resolved 1%nat, set_users (<[email := spend r]> (users d)) d)
        else (Resolved 0%nat, d)
    | None => (Resolved 0%nat, d)
    end).

(** [UPDATE users SET tokens = tokens + ? WHERE email = ?] *)
Definition update_add (amt : Z) (email : string) : async nat :=
  statement (λ d,
    match users d !! email with
    | Some r =>
        (Resolved 1%nat, set_users (<[email := top_up amt r]> (users d)) d)
    | None => (Resolved 0%nat, d)
    end).

(** *** Exported functions *)

(** [logTokenTransaction]: one [INSERT INTO token_transactions]; resolves to
    [this.lastID]. The foreign key on [user_email] is not enforced (SQLite
    leaves foreign keys off unless the pragma is set, and the file never
    sets it). *)
Definition logTokenTransaction (userEmail : string) (ty : transaction_type)
    (amt : Z) (desc : string) (stripeSessionId : option string) : async nat :=
  statement (λ d,
    let row := new_row (token_transactions d) userEmail ty amt desc
                 stripeSessionId in
    (Resolved (tx_id row), set_log (token_transactions d ++ [row]) d)).

Definition getUserTokens (email : string) : async account :=
  with_callback (select_user email) (λ res,
    match res with
    | Rejected err => reject err
    | Resolved (Some row) =>
        resolve {| balance := tokens row; totalUsed := total_used row |}
    | Resolved None =>
        with_callback (insert_user email) (λ res,
          match res with
          | Rejected err => reject err
          | Resolved _ =>
              forget (logTokenTransaction email bonus 25
                        "Welcome bonus - 25 free tokens" None) ;;
              resolve {| balance := 25; totalUsed := 0 |}
          end)
    end).

Definition deductToken (email : string) : async bool :=
  exec BEGIN_TRANSACTION ;;
  with_callback (select_user email) (λ res,
    match res with
    | Rejected err => exec ROLLBACK ;; reject err
    | Resolved row =>
        if match row with
           | None => true
           | Some r => bool_decide (tokens r ≤ 0)
           end
        then exec ROLLBACK ;; resolve false
        else
          with_callback (update_deduct email) (λ res,
            match res with
            | Rejected err => exec ROLLBACK ;; reject err
            | Resolved changes =>
                if (changes =? 0)%nat
                then exec ROLLBACK ;; resolve false
                else
                  exec COMMIT ;;
                  forget (logTokenTransaction email usage (-1)
                            "Emoji generation" None) ;;
                  resolve true
            end)
    end).

Definition addTokens (email : string) (amt : Z) (desc : string)
    (stripeSessionId : option string) : async account :=
  with_callback (update_add amt email) (λ res,
    match res with
    | Rejected err => reject err
    | Resolved _ =>
        logTokenTransaction email purchase amt desc stripeSessionId ;;
        getUserTokens email
    end).

(** An integer that a JavaScript number holds exactly
    ([Number.isSafeInteger]): the range in which the unbounded integers of
    this model and the numbers of the program agree. *)
Definition safe_integer (n : Z) : Prop := - 2 ^ 53 < n < 2 ^ 53.

(** The defaults of [addTokens]'s last two parameters. *)
Definition default_description : string := "Token purchase".
Definition default_stripeSessionId : option string := None.

End Database.

(** ** src/server/server.js *)

Module Server.
Import Database.

(** *** Requests, responses and the collaborators *)

(** [req.file], as multer leaves it. *)
Record upload := {
  filename : string;
  path : string
}.

(** The multipart fields of [POST /api/generate-emoji]; [None] is a field
    that was not sent ([undefined]). *)
Record generate_request := {
  file : option upload;
  body_description : option string;
  body_userEmail : option string;
  body_removeBackground : option string;
  body_emojify : option string
}.

(** What [geminiService.generateEmoji] resolves to. *)
Record generation := {
  userPath : string;
  generated_filename : string;
  prompt : string
}.

(** The image-generation collaborator: its answer is an input of the model. *)
Record GeminiService := {
  generateEmoji :
    option string → option string → bool → bool → string → promise generation
}.

(** The module-level state the handlers read, what other requests do to
    the store while this one is suspended at its [k]-th [await], and the
    message of the errors the engine reports. *)
Record environment := {
  geminiService : option GeminiService;
  concurrent : nat → db → db;
  engine_message : string
}.

(** Response bodies. [tokensNeeded] is [false] where the source sends no
    such field. *)
Inductive json :=
| error_json (error : string) (tokensNeeded : bool)
| generated_json (originalImage : option string)
    (generatedImage filename prompt : string) (tokensRemaining : Z)
| received_json
| text_body (text : string).

Record response := {
  status : nat;
  body : json
}.

(** What the handler did with the request: it sent a response, its promise
    rejected without one, or the process exited under it. *)
Inductive outcome :=
| Responded (r : response)
| Unhandled (e : js_error)
| Exited.

(** Calls a handler made to the accounting functions and to the image
    service, in order, with their results. *)
Inductive call :=
| getUserTokens_call (email : string) (result : promise account)
| deductToken_call (email : string) (result : promise bool)
| generateEmoji_call (imagePath description : option string)
    (removeBackground emojify : bool) (userEmail : string)
    (result : promise generation)
| addTokens_call (email : string) (amount : Z) (description : string)
    (stripeSessionId : option string) (result : promise account).

Record world := {
  database : db;
  calls : list call
}.

Definition task (A : Type) : Type := world → promise A * world.

Global Instance task_ret : MRet task := λ A a w, (Resolved a, w).
Global Instance task_bind : MBind task := λ A B k t w,
  match t w with
  | (Resolved a, w') => k a w'
  | (Rejected e, w') => (Rejected e, w')
  end.

Definition throw {A} (e : js_error) : task A := λ w, (Rejected e, w).

(** [await f(...)] at the handler's [k]-th suspension point. *)
Definition await {A} (env : environment) (k : nat) (record : promise A → call)
    (f : async A) : task A :=
  λ w, let '(r, d) := f (concurrent env k (database w)) in
       (r, {| database := d; calls := (calls w ++ [record r])%list |}).

Definition await_external {A} (env : environment) (k : nat)
    (record : promise A → call) (r : promise A) : task A :=
  λ w, (r, {| database := concurrent env k (database w);
              calls := (calls w ++ [record r])%list |}).

(** [try { body } catch (e) { handler }] around an awaited call. A promise
    that is never settled throws nothing. *)
Definition try_catch {A} (body : task A) (handler : js_error → task A)
  : task A :=
  λ w, match body w with
       | (Resolved a, w') => (Resolved a, w')
       | (Rejected Uncaught, w') => (Rejected Uncaught, w')
       | (Rejected e, w') => handler e w'
       end.

(** *** Lexical scope *)

Inductive js_value :=
| undefined
| str (s : string)
| object.

Definition scope := list (string * js_value).

Fixpoint lookup_identifier (x : string) (sc : scope) : option js_value :=
  match sc with
  | [] => None
  | (y, v) :: rest => if bool_decide (x = y) then Some v
                      else lookup_identifier x rest
  end.

Definition truthy (v : js_value) : bool :=
  match v with
  | undefined => false
  | str s => negb (bool_decide (s = ""))
  | object => true
  end.

Definition to_string (v : js_value) : string :=
  match v with
  | undefined => "undefined"
  | str s => s
  | object => "[object Object]"
  end.

(** Every [const], [let] and function binding declared at the top level of
    [server.js]. *)
Definition module_scope : scope :=
  (λ x, (x, object)) <$>
  ["express"; "cors"; "multer"; "path"; "GeminiService"; "Resend"; "stripe";
   "initDatabase"; "getUserTokens"; "deductToken"; "addTokens";
   "logTokenTransaction"; "app"; "PORT"; "geminiService"; "resend";
   "storage"; "upload"; "fs"; "createUserDirectory"; "verificationCodes"].

(** The parameters of a route handler [async (req, res) => { ... }]. *)
Definition handler_scope : scope :=
  ([("req", object); ("res", object)] ++ module_scope)%list.

(** *** POST /api/generate-emoji *)

(** The [const] bindings of the [try] block; they are visible inside that
    block only. *)
Definition try_scope (req : generate_request) : scope :=
  ([("description", from_option str undefined (body_description req));
   ("userEmail", from_option str undefined (body_userEmail req));
   ("userTokenData", object); ("tokenDeducted", object);
   ("removeBackground", from_option str undefined (body_removeBackground req));
   ("emojify", from_option str undefined (body_emojify req));
   ("imagePath", object); ("result", object); ("updatedTokens", object)]
   ++ handler_scope)%list.

(** The scope of [catch (error) { ... }]: the handler's own, plus [error]. *)
Definition catch_scope : scope :=
  ("error", object) :: handler_scope.

(** The white space of JavaScript ([WhiteSpace] and [LineTerminator], what
    [trim] and [parseInt] strip) is U+0009 to U+000D, U+0020, U+00A0, U+1680,
    U+2000 to U+200A, U+2028, U+2029, U+202F, U+205F, U+3000 and U+FEFF.
    [is_whitespace] is the part of it that is one byte of UTF-8;
    [is_whitespace2] and [is_whitespace3] recognise the encodings of the
    rest. *)
Definition is_whitespace (c : ascii) : bool :=
  let n := nat_of_ascii c in
  ((n =? 32) || ((9 <=? n) && (n <=? 13)))%nat.

(** U+00A0 is [C2 A0]. *)
Definition is_whitespace2 (c1 c2 : ascii) : bool :=
  ((nat_of_ascii c1 =? 194) && (nat_of_ascii c2 =? 160))%nat.

(** U+1680 is [E1 9A 80]; U+2000 to U+200A are [E2 80 80] to [E2 80 8A];
    U+2028, U+2029 and U+202F are [E2 80 A8], [E2 80 A9] and [E2 80 AF];
    U+205F is [E2 81 9F]; U+3000 is [E3 80 80]; U+FEFF is [EF BB BF]. *)
Definition is_whitespace3 (c1 c2 c3 : ascii) : bool :=
  let n1 := nat_of_ascii c1 in
  let n2 := nat_of_ascii c2 in
  let n3 := nat_of_ascii c3 in
  (((n1 =? 225) && (n2 =? 154) && (n3 =? 128))
   || ((n1 =? 226) && (n2 =? 128)
       && (((128 <=? n3) && (n3 <=? 138))
           || (n3 =? 168) || (n3 =? 169) || (n3 =? 175)))
   || ((n1 =? 226) && (n2 =? 129) && (n3 =? 159))
   || ((n1 =? 227) && (n2 =? 128) && (n3 =? 128))
   || ((n1 =? 239) && (n2 =? 187) && (n3 =? 191)))%nat.

(** [s.trim()] is the empty string: [s] is white space from end to end. *)
Fixpoint blank (s : string) : bool :=
  match s with
  | EmptyString => true
  | String c1 s1 =>
      if is_whitespace c1 then blank s1
      else
        match s1 with
        | String c2 s2 =>
            if is_whitespace2 c1 c2 then blank s2
            else
              match s2 with
              | String c3 s3 => is_whitespace3 c1 c2 c3 && blank s3
              | EmptyString => false
              end
        | EmptyString => false
        end
  end.

(** [description?.trim()] as a condition. *)
Definition trimmed_truthy (description : option string) : bool :=
  match description with
  | None => false
  | Some s => negb (blank s)
  end.

Definition json_error (st : nat) (msg : string) : response :=
  {| status := st; body := error_json msg false |}.

Definition try_block (env : environment) (req : generate_request)
  : task response :=
  let description := body_description req in
  if bool_decide (file req = None) && negb (trimmed_truthy description) then
    mret (json_error 400 "Please provide either an image file or a description")
  else
    match body_userEmail req with
    | None | Some EmptyString => mret (json_error 400 "User email is required")
    | Some userEmail =>
        userTokenData ←
          await env 1 (getUserTokens_call userEmail) (getUserTokens userEmail);
        if bool_decide (balance userTokenData ≤ 0) then
          mret {| status := 402;
                  body := error_json "Insufficient tokens. Please purchase more tokens to continue generating emojis." true |}
        else
          tokenDeducted ←
            await env 2 (deductToken_call userEmail) (deductToken userEmail);
          if negb tokenDeducted then
            mret {| status := 402;
                    body := error_json "Failed to deduct token. Please try again." true |}
          else
            match geminiService env with
            | None =>
                mret (json_error 500 "Gemini service not available. Please check your API key configuration.")
            | Some service =>
                let removeBackground :=
                  bool_decide (body_removeBackground req = Some "true") in
                let emojify := bool_decide (body_emojify req = Some "true") in
                let imagePath := path <$> file req in
                result ←
                  await_external env 3
                    (generateEmoji_call imagePath description removeBackground
                       emojify userEmail)
                    (generateEmoji service imagePath description
                       removeBackground emojify userEmail);
                updatedTokens ←
                  await env 4 (getUserTokens_call userEmail)
                    (getUserTokens userEmail);
                mret {| status := 200;
                        body := generated_json
                                  ((λ f, "/" ++ filename f) <$> file req)
                                  ("/" ++ userPath result)
                                  (generated_filename result)
                                  (prompt result)
                                  (balance updatedTokens) |}
            end
    end.

(** The [catch (error)] block. Its [userEmail] is an identifier reference
    resolved in [catch_scope]; a reference that resolves nowhere throws. *)
Definition catch_block (env : environment) (error : js_error)
  : task response :=
  match lookup_identifier "userEmail" catch_scope with
  | None => throw (ReferenceError "userEmail")
  | Some userEmail =>
      (if truthy userEmail then
         try_catch
           (await env 5
              (addTokens_call (to_string userEmail) 1
                 "Refund - Generation failed" default_stripeSessionId)
              (addTokens (to_string userEmail) 1 "Refund - Generation failed"
                 default_stripeSessionId) ;;
            mret tt)
           (λ refundError, mret tt)
       else mret tt) ;;
      mret (json_error 500
              ("Failed to generate emoji: "
               ++ error_message (engine_message env) error))
  end.

Definition finish (r : promise response * world) : outcome * world :=
  match r with
  | (Resolved resp, w) => (Responded resp, w)
  | (Rejected Uncaught, w) => (Exited, w)
  | (Rejected e, w) => (Unhandled e, w)
  end.

Definition generate_emoji (env : environment) (req : generate_request)
  : world → outcome * world :=
  λ w, finish (try_catch (try_block env req) (catch_block env) w).

(** *** POST /api/stripe-webhook *)

(** [event.data.object] of a checkout event; [tokens] is
    [parseInt(session.metadata.tokens)], [None] standing for [NaN]. *)
Record checkout_session := {
  session_id : string;
  metadata_userEmail : option string;
  tokens_parsed : option Z;
  metadata_package : string
}.

Record stripe_event := {
  event_type : string;
  data_object : checkout_session
}.

Definition number_truthy (n : option Z) : option Z :=
  match n with
  | Some k => if bool_decide (k = 0) then None else Some k
  | None => None
  end.

(** The handler of the route. [constructed] is what
    [stripe.webhooks.constructEvent] did with [req.body] and the signature
    header: the event, or the error it threw. What [req.body] is when the
    handler runs is decided by the middleware in front of it: see
    [Routes.webhook_route]. *)
Definition stripe_webhook (env : environment)
    (constructed : promise stripe_event) : world → outcome * world :=
  λ w, finish (
    match constructed with
    | Rejected err =>
        mret {| status := 400;
                body := text_body ("Webhook Error: "
                                   ++ error_message (engine_message env) err) |}
    | Resolved event =>
        (if bool_decide (event_type event = "checkout.session.completed") then
           let session := data_object event in
           match metadata_userEmail session, number_truthy (tokens_parsed session) with
           | Some userEmail, Some tokensToAdd =>
               if bool_decide (userEmail = "") then mret tt
               else
                 let desc := "Stripe purchase - " ++ metadata_package session
                             ++ " package" in
                 try_catch
                   (await env 1
                      (addTokens_call userEmail tokensToAdd desc
                         (Some (session_id session)))
                      (addTokens userEmail tokensToAdd desc
                         (Some (session_id session))) ;;
                    mret tt)
                   (λ error, mret tt)
           | _, _ => mret tt
           end
         else mret tt) ;;
        mret {| status := 200; body := received_json |}
    end w).

End Server.

(** ** Histories of ledger operations, and the inputs used in examples *)

Module Ledger.
Import Database.

(** The three operations that write the ledger, named as the specification
    names them: account creation is [getUserTokens] on first touch, [deduct]
    is [deductToken], [credit] is [addTokens]. *)
Inductive operation :=
| create_account (email : string)
| deduct (email : string)
| credit (email : string) (amt : Z) (desc : string) (eventId : option string).

Definition apply (o : operation) (d : db) : db :=
  match o with
  | create_account email => snd (getUserTokens email d)
  | deduct email => snd (deductToken email d)
  | credit email amt desc eventId => snd (addTokens email amt desc eventId d)
  end.

Definition run (ops : list operation) (d : db) : db :=
  foldl (λ d o, apply o d) d ops.

(** The sum of the amounts of the rows logged for [email]. *)
Definition sum_amounts (email : string) (log : list tx_row) : Z :=
  foldr (λ t acc, if bool_decide (user_email t = email)
                  then amount t + acc else acc) 0 log.

(** Every [credit] of the history finds the row of its account. *)
Fixpoint credits_reach_accounts (ops : list operation) (d : db) : bool :=
  match ops with
  | [] => true
  | o :: rest =>
      match o with
      | credit email _ _ _ => bool_decide (is_Some (users d !! email))
      | _ => true
      end && credits_reach_accounts rest (apply o d)
  end.

(** No transaction is left open, no failure is scheduled, every account's
    balance is the sum of its logged amounts, and nothing is logged for a
    user without an account. *)
Definition reconciled (d : db) : Prop :=
  txn d = None ∧ faults d = [] ∧
  ∀ email,
    match users d !! email with
    | Some r => tokens r = sum_amounts email (token_transactions d)
    | None => sum_amounts email (token_transactions d) = 0
    end.

(** The store after [a@example.com] asked for their balance once. *)
Definition alice : string := "a@example.com".

Definition alice_row : user_row :=
  {| id := 1; tokens := 25; total_used := 0 |}.

Definition welcome_row : tx_row :=
  {| tx_id := 1; user_email := alice; type := bonus; amount := 25;
     description := "Welcome bonus - 25 free tokens";
     stripe_session_id := None |}.

Definition alice_db : db :=
  {| users := {[ alice := alice_row ]};
     token_transactions := [welcome_row];
     txn := None; faults := [] |}.

(** The same store on a connection whose third statement will fail. *)
Definition alice_db_failing_third : db :=
  {| users := {[ alice := alice_row ]};
     token_transactions := [welcome_row];
     txn := None; faults := [false; false; true] |}.

(** The same account with nothing left to spend. *)
Definition alice_broke_db : db :=
  {| users := {[ alice := {| id := 1; tokens := 0; total_used := 25 |} ]};
     token_transactions := [welcome_row];
     txn := None; faults := [] |}.

(** A user nobody has seen yet, and the checkout session that pays for
    their tokens. *)
Definition newcomer : string := "new@example.com".
Definition session : string := "cs_test_1".
Definition purchase_description : string := "Stripe purchase - 100 package".

(** A history that touches every operation. *)
Definition sample_history : list operation :=
  [create_account alice; deduct alice;
   credit alice 100 purchase_description (Some session); deduct newcomer;
   create_account newcomer; deduct alice].

End Ledger.

(** ** Requests and environments used in statements and examples *)

Module Scenario.
Import Database Server Ledger.

(** No other request touches the store while this one is suspended. *)
Definition quiet (env : environment) : Prop :=
  ∀ k d, concurrent env k d = d.

(** The request passes both input checks of the handler and names [email]
    as its user. *)
Definition well_formed (req : generate_request) (email : string) : Prop :=
  (bool_decide (file req = None) && negb (trimmed_truthy (body_description req))
   = false)
  ∧ body_userEmail req = Some email
  ∧ email ≠ "".

(** Observers of the call trace. *)
Definition deduct_refused (c : call) : bool :=
  match c with
  | deductToken_call _ (Resolved false) => true
  | _ => false
  end.

Definition is_generation (c : call) : bool :=
  match c with
  | generateEmoji_call _ _ _ _ _ _ => true
  | _ => false
  end.

Definition is_credit (c : call) : bool :=
  match c with
  | addTokens_call _ _ _ _ _ => true
  | _ => false
  end.

Definition fresh_world (d : db) : world := {| database := d; calls := [] |}.

(** A text-only request by [a@example.com]. *)
Definition cat_request : generate_request :=
  {| file := None; body_description := Some "cat";
     body_userEmail := Some alice;
     body_removeBackground := None; body_emojify := None |}.

(** An image service whose call fails the way [generateEmoji] does when the
    model answers with text only. *)
Definition text_only_failure : js_error :=
  Error "No image data found in response. Response was text only.".

Definition failing_service : GeminiService :=
  {| generateEmoji := λ _ _ _ _ _, Rejected text_only_failure |}.

Definition failing_env : environment :=
  {| geminiService := Some failing_service; concurrent := λ _ d, d;
     engine_message := "SQLITE_ERROR: no such table: users" |}.

(** The constructor of [GeminiService] threw: [geminiService] stayed
    [undefined]. *)
Definition no_service_env : environment :=
  {| geminiService := None; concurrent := λ _ d, d;
     engine_message := "SQLITE_ERROR: no such table: users" |}.

(** [a@example.com] with one token left, and an environment in which
    another request of theirs spends it between this request's balance check
    and its deduct. *)
Definition alice_last_token_db : db :=
  {| users := {[ alice := {| id := 1; tokens := 1; total_used := 24 |} ]};
     token_transactions := [welcome_row];
     txn := None; faults := [] |}.

Definition racing_env : environment :=
  {| geminiService := Some failing_service;
     concurrent := λ k d, if (k =? 2)%nat then snd (deductToken alice d)
                          else d;
     engine_message := "SQLITE_ERROR: no such table: users" |}.

End Scenario.

(** ** JavaScript built-ins used by the handlers *)

Module JS.
Import Server.

(** The value of [c] as a digit in [radix], if it is one. *)
Definition digit_value (radix : N) (c : ascii) : option N :=
  let n := N_of_ascii c in
  let v := if ((48 <=? n) && (n <=? 57))%N then Some (n - 48)%N
           else if ((97 <=? n) && (n <=? 122))%N then Some (n - 87)%N
           else if ((65 <=? n) && (n <=? 90))%N then Some (n - 55)%N
           else None in
  match v with
  | Some k => if (k <? radix)%N then Some k else None
  | None => None
  end.

(** The value of the longest prefix of [s] made of digits; [acc] is what
    has been read so far ([None]: no digit yet). *)
Fixpoint parse_digits (radix : N) (acc : option N) (s : string) : option N :=
  match s with
  | String c s' =>
      match digit_value radix c with
      | Some k => parse_digits radix (Some (radix * default 0 acc + k)%N) s'
      | None => acc
      end
  | EmptyString => acc
  end.

(** [s] without its leading white space. *)
Fixpoint skip_whitespace (s : string) : string :=
  match s with
  | String c1 s1 =>
      if is_whitespace c1 then skip_whitespace s1
      else
        match s1 with
        | String c2 s2 =>
            if is_whitespace2 c1 c2 then skip_whitespace s2
            else
              match s2 with
              | String c3 s3 =>
                  if is_whitespace3 c1 c2 c3 then skip_whitespace s3 else s
              | EmptyString => s
              end
        | EmptyString => s
        end
  | EmptyString => EmptyString
  end.

(** [parseInt(s)] with no radix argument: leading white space, a sign, a
    [0x]/[0X] prefix, then the longest run of digits.
    [None] stands for [NaN]; the result is exact (no rounding to a double). *)
Definition parseInt (s : string) : option Z :=
  let s1 := skip_whitespace s in
  let '(negative, s2) :=
    match s1 with
    | String "-"%char r => (true, r)
    | String "+"%char r => (false, r)
    | _ => (false, s1)
    end in
  let '(radix, s3) :=
    match s2 with
    | String "0"%char (String "x"%char r) => (16%N, r)
    | String "0"%char (String "X"%char r) => (16%N, r)
    | _ => (10%N, s2)
    end in
  match parse_digits radix None s3 with
  | None => None
  | Some n => Some (if negative : bool then - Z.of_N n else Z.of_N n)
  end.

(** [n.toString()] for an integer [n] (below 10^21 in absolute value, where
    JavaScript still prints every digit). *)
Definition Number_toString (n : Z) : string :=
  DecimalString.NilZero.string_of_int (Z.to_int n).

End JS.

(** ** src/server/server.js: the other routes *)

Module Routes.
Import Database Server JS.

Inductive payload :=
| error_payload (error : string)
| tokens_payload (balance totalUsed : Z) (isNewUser : bool)
| checkout_payload (checkoutUrl sessionId : string).

Record reply := {
  reply_status : nat;
  reply_body : payload
}.

(** *** GET /api/user-tokens/:email *)

Definition user_tokens (env : environment) (email : string)
  : world → reply * world :=
  λ w,
    match
      (if bool_decide (email = "") then
         mret {| reply_status := 400;
                 reply_body := error_payload "Email is required" |}
       else
         tokens ← await env 1 (getUserTokens_call email) (getUserTokens email);
         mret {| reply_status := 200;
                 reply_body :=
                   tokens_payload (balance tokens) (totalUsed tokens)
                     (bool_decide (totalUsed tokens = 0)) |}) w
    with
    | (Resolved r, w') => (r, w')
    | (Rejected error, w') =>
        ({| reply_status := 500;
            reply_body := error_payload
                            ("Failed to fetch tokens: "
                             ++ error_message (engine_message env) error) |},
         w')
    end.

(** *** POST /api/purchase-tokens *)

Record package := {
  pkg_tokens : Z;
  pkg_price : Z;
  pkg_name : string
}.

(** The own properties of the [packages] object. *)
Definition packages : list (string * package) :=
  [("25", {| pkg_tokens := 25; pkg_price := 100; pkg_name := "25 Tokens" |});
   ("100", {| pkg_tokens := 100; pkg_price := 400; pkg_name := "100 Tokens" |});
   ("250", {| pkg_tokens := 250; pkg_price := 900; pkg_name := "250 Tokens" |});
   ("500", {| pkg_tokens := 500; pkg_price := 1700;
              pkg_name := "500 Tokens" |})].

(** The property names every object literal inherits from
    [Object.prototype]. Each is a function or an object: truthy, and without
    a [tokens] property. *)
Definition object_prototype : list string :=
  ["constructor"; "__defineGetter__"; "__defineSetter__"; "hasOwnProperty";
   "__lookupGetter__"; "__lookupSetter__"; "isPrototypeOf";
   "propertyIsEnumerable"; "toString"; "valueOf"; "__proto__";
   "toLocaleString"].

Inductive property :=
| own (p : package)
| inherited
| absent.

Fixpoint own_property (key : string) (obj : list (string * package))
  : option package :=
  match obj with
  | [] => None
  | (k, p) :: rest => if bool_decide (key = k) then Some p
                      else own_property key rest
  end.

(** [packages[tokenPackage]] *)
Definition get_property (key : string) : property :=
  match own_property key packages with
  | Some p => own p
  | None => if bool_decide (key ∈ object_prototype) then inherited
            else absent
  end.

(** The JSON body, the [Origin] header, and whether
    [process.env.STRIPE_SECRET_KEY] is set. *)
Record purchase_request := {
  purchase_userEmail : option string;
  tokenPackage : option string;
  origin : option string
}.

(** The argument of [stripe.checkout.sessions.create], without its constant
    fields ([payment_method_types], the product image, [mode]). *)
Record checkout_params := {
  currency : string;
  product_name : string;
  product_description : string;
  unit_amount : Z;
  quantity : Z;
  success_url : string;
  cancel_url : string;
  client_reference_id : string;
  meta_userEmail : string;
  meta_tokens : string;
  meta_package : string
}.

Record stripe_session := {
  session_url : string;
  created_id : string
}.

(** The payment collaborator: what [sessions.create] answers. *)
Record Stripe := {
  configured : bool;
  create : checkout_params → promise stripe_session
}.

(** The handler's reply and the sessions it asked Stripe to create. *)
Definition purchase_tokens (stripe : Stripe) (req : purchase_request)
  : reply * list checkout_params :=
  let tokenPackage := default "25" (tokenPackage req) in
  match purchase_userEmail req with
  | None | Some EmptyString =>
      ({| reply_status := 400;
          reply_body := error_payload "User email is required" |}, [])
  | Some userEmail =>
      if negb (configured stripe) then
        ({| reply_status := 500;
            reply_body := error_payload "Payment processing not configured" |},
         [])
      else
        match get_property tokenPackage with
        | absent =>
            ({| reply_status := 400;
                reply_body := error_payload "Invalid token package" |}, [])
        | inherited =>
            (* [selectedPackage.tokens] is [undefined]: building the
               argument throws at [selectedPackage.tokens.toString()] *)
            ({| reply_status := 500;
                reply_body :=
                  error_payload
                    ("Failed to create payment session: " ++
                     "Cannot read properties of undefined (reading 'toString')") |},
             [])
        | own selectedPackage =>
            let origin := default "undefined" (origin req) in
            let params :=
              {| currency := "usd";
                 product_name := pkg_name selectedPackage ++ " - Emoji Generator";
                 product_description :=
                   "Generate " ++ Number_toString (pkg_tokens selectedPackage)
                   ++ " custom emojis with AI";
                 unit_amount := pkg_price selectedPackage;
                 quantity := 1;
                 success_url :=
                   origin ++ "/?purchase=success&session_id={CHECKOUT_SESSION_ID}";
                 cancel_url := origin ++ "/?purchase=cancelled";
                 client_reference_id := userEmail;
                 meta_userEmail := userEmail;
                 meta_tokens := Number_toString (pkg_tokens selectedPackage);
                 meta_package := tokenPackage |} in
            match create stripe params with
            | Resolved session =>
                ({| reply_status := 200;
                    reply_body := checkout_payload (session_url session)
                                    (created_id session) |}, [params])
            | Rejected error =>
                (* the error is one of Stripe's client: no text of the
                   database engine goes into its message *)
                ({| reply_status := 500;
                    reply_body :=
                      error_payload ("Failed to create payment session: "
                                     ++ error_message "" error) |}, [params])
            end
        end
  end.

(** *** POST /api/stripe-webhook, as mounted

    [app.use(express.json())] is installed for every route, ahead of the
    webhook route and its own [express.raw({type: 'application/json'})]. *)









End Routes.

(** ** src/server/server.js: verification codes *)

Module Auth.

(** A value of the [verificationCodes] map. *)
Record stored := {
  code : string;
  expires : Z
}.

Inductive auth_payload :=
| auth_error (error : string)
| code_sent
| verified (email : string).

Record auth_reply := {
  auth_status : nat;
  auth_body : auth_payload
}.

(** The mail collaborator: [None] when [RESEND_API_KEY] is not set,
    otherwise what [resend.emails.send] answers for a recipient and a code. *)
Definition Resend := option (string → string → promise unit).

(** [POST /api/send-code]. [generated] is the six-digit string drawn from
    [Math.random()], [now] is [Date.now()]. Returns the reply, the map, and
    the mails handed to the collaborator. *)
Definition send_code (resend : Resend) (email : option string)
    (generated : string) (now : Z) (codes : gmap string stored)
  : auth_reply * gmap string stored * list (string * string) :=
  match email with
  | None | Some EmptyString =>
      ({| auth_status := 400;
          auth_body := auth_error "Email address is required" |}, codes, [])
  | Some email =>
      let codes' :=
        <[email := {| code := generated;
                      expires := now + 10 * 60 * 1000 |}]> codes in
      let mails :=
        match resend with
        | Some send => [(email, generated)]
        | None => []
        end in
      ({| auth_status := 200; auth_body := code_sent |}, codes', mails)
  end.

(** [POST /api/verify-code]; [now] is [Date.now()]. *)
Definition verify_code (body_email body_code : option string) (now : Z)
    (codes : gmap string stored) : auth_reply * gmap string stored :=
  match body_email, body_code with
  | Some (String _ _ as email), Some (String _ _ as submitted) =>
      match codes !! email with
      | None =>
          ({| auth_status := 400;
              auth_body :=
                auth_error "No verification code found for this email" |},
           codes)
      | Some storedData =>
          if bool_decide (expires storedData < now) then
            ({| auth_status := 400;
                auth_body := auth_error "Verification code has expired" |},
             delete email codes)
          else if negb (bool_decide (code storedData = submitted)) then
            ({| auth_status := 400;
                auth_body := auth_error "Invalid verification code" |}, codes)
          else
            ({| auth_status := 200; auth_body := verified email |},
             delete email codes)
      end
  | _, _ =>
      ({| auth_status := 400;
          auth_body := auth_error "Email address and code are required" |},
       codes)
  end.

End Auth.

(** ** Directory names: [getSafeEmail] *)

Module Paths.

(** A JavaScript string as its sequence of UTF-16 code units. *)
Definition js_string := list N.

(** The code units the class [[a-zA-Z0-9@.-]] accepts. *)
Definition is_safe (u : N) : bool :=
  ((97 <=? u) && (u <=? 122) || (65 <=? u) && (u <=? 90)
   || (48 <=? u) && (u <=? 57) || (u =? 64) || (u =? 46) || (u =? 45))%N.

Definition underscore : N := 95.

(** [email.replace(/[^a-zA-Z0-9@.-]/g, '_')], in [gemini.js] and inline in
    [server.js]. *)
Definition getSafeEmail (email : js_string) : js_string :=
  (λ u, if is_safe u then u else underscore) <$> email.

(** The code units of a string of Latin-1 characters. *)
Fixpoint units (s : string) : js_string :=
  match s with
  | EmptyString => []
  | String c s' => N_of_ascii c :: units s'
  end.

End Paths.

(** ** More histories and inputs *)

Module Samples.
Import Database Server Ledger Scenario JS Routes Auth.

(** Every balance in the store is non-negative. *)
Definition solvent (d : db) : Prop :=
  ∀ email r, users d !! email = Some r → 0 ≤ tokens r.

(** The user an operation is about, and the amount it may add. *)
Definition subject (o : operation) : string :=
  match o with
  | create_account email | deduct email | credit email _ _ _ => email
  end.

Definition adds_nonnegative (o : operation) : bool :=
  match o with
  | credit _ amt _ _ => bool_decide (0 ≤ amt)
  | _ => true
  end.

(** What one operation can do to the [users] table: nothing, one token
    spent, one credit added, or one account opened. *)
Inductive rewritten (o : operation) (us : gmap string user_row)
  : gmap string user_row → Prop :=
| kept : rewritten o us us
| charged r :
    o = deduct (subject o) → us !! subject o = Some r → 0 < tokens r →
    rewritten o us (<[subject o := spend r]> us)
| credited r amt desc eventId :
    o = credit (subject o) amt desc eventId → us !! subject o = Some r →
    rewritten o us (<[subject o := top_up amt r]> us)
| opened :
    o ≠ deduct (subject o) → us !! subject o = None →
    rewritten o us (<[subject o := fresh_user us]> us).

(** [k] deducts in a row. *)
Definition deducts (k : nat) (email : string) (d : db) : db :=
  Nat.iter k (λ d, snd (deductToken email d)) d.

(** The store after one [generate-emoji] request, and the handler's answer. *)
Definition serve (env : environment) (req : generate_request) (d : db) : db :=
  database (snd (generate_emoji env req (fresh_world d))).

Definition answer (env : environment) (req : generate_request) (d : db)
  : outcome :=
  fst (generate_emoji env req (fresh_world d)).

(** An image service that always succeeds. *)
Definition drawn : generation :=
  {| userPath := "a@example.com/emoji-1700000000000.png";
     generated_filename := "emoji-1700000000000.png";
     prompt := "Generate an emoji image that represents: cat. " |}.

Definition working_service : GeminiService :=
  {| generateEmoji := λ _ _ _ _ _, Resolved drawn |}.

Definition working_env : environment :=
  {| geminiService := Some working_service; concurrent := λ _ d, d;
     engine_message := "SQLITE_ERROR: no such table: users" |}.


(** The same with a description made of U+00A0, U+FEFF and U+2028. *)
Definition unicode_blank : string :=
  String.string_of_list_ascii
    (ascii_of_nat <$> [194; 160; 239; 187; 191; 226; 128; 168])%nat.

Definition unicode_blank_request : generate_request :=
  {| file := None; body_description := Some unicode_blank;
     body_userEmail := Some alice;
     body_removeBackground := None; body_emojify := None |}.

(** A Stripe account that creates every session it is asked for. *)
Definition test_stripe : Stripe :=
  {| configured := true;
     create := λ _, Resolved {| session_url := "https://checkout.stripe.com/c/pay/cs_test_1";
                               created_id := session |} |}.

Definition purchase_of (pkg : string) : purchase_request :=
  {| purchase_userEmail := Some alice; tokenPackage := Some pkg;
     origin := Some "http://localhost:3000" |}.

(** How many deducts and how many image generations a call trace holds. *)
Definition deductions (cs : list call) : nat :=
  length (List.filter
            (λ c, match c with deductToken_call _ _ => true | _ => false end)
            cs).

Definition generations (cs : list call) : nat :=
  length (List.filter is_generation cs).

(** The value of a decimal numeral read from the left, [a] being the value
    of the digits already read. *)
Fixpoint read (u : Decimal.uint) (a : N) : N :=
  match u with
  | Decimal.Nil => a
  | Decimal.D0 u => read u (10 * a + 0)
  | Decimal.D1 u => read u (10 * a + 1)
  | Decimal.D2 u => read u (10 * a + 2)
  | Decimal.D3 u => read u (10 * a + 3)
  | Decimal.D4 u => read u (10 * a + 4)
  | Decimal.D5 u => read u (10 * a + 5)
  | Decimal.D6 u => read u (10 * a + 6)
  | Decimal.D7 u => read u (10 * a + 7)
  | Decimal.D8 u => read u (10 * a + 8)
  | Decimal.D9 u => read u (10 * a + 9)
  end%N.

(** A code unit that [getSafeEmail] leaves alone: one of the accepted class,
    or the underscore itself. *)
Definition tame (u : N) : Prop :=
  Paths.is_safe u = true ∨ u = Paths.underscore.

(** A paid event for the 100-token package, as Stripe sends it back. *)
Definition paid_100 : stripe_event :=
  {| event_type := "checkout.session.completed";
     data_object := {| session_id := session;
                       metadata_userEmail := Some alice;
                       tokens_parsed := parseInt "100";
                       metadata_package := "100" |} |}.

(** One pending code for [a@example.com], issued at time 1000. *)
Definition pending : gmap string stored :=
  {[ alice := {| code := "123456"; expires := 1000 + 10 * 60 * 1000 |} ]}.



End Samples.

(** ** src/server/database.js: calls that overlap on the connection

    The functions of [Database] run one call from its first statement to its
    last. The program has one connection for all of its requests, and a call
    of [deductToken] submits its statements in three turns: the executor of
    its promise submits [BEGIN TRANSACTION] and the [SELECT] inside
    [db.serialize], the callback of the [SELECT] submits the [UPDATE] or the
    [ROLLBACK], and the callback of the [UPDATE] submits the [COMMIT] and the
    audit insert, or the [ROLLBACK]. The connection runs what it is given in
    the order of submission; a callback runs when its statement has run, and
    what it submits joins the back of the queue. *)

Module EventLoop.
Import Database.

(** What waits on the connection: a statement without a callback, or one of
    the statements of [deductToken] with the callback the source gives it;
    [caller] names the promise that the callback settles. *)
Inductive job :=
| silent (sql : db → option db)
| get_tokens (caller : nat) (email : string)
| run_update (caller : nat) (email : string)
| log_usage (email : string).

(** The store, the queue of the connection, the promises settled so far, and
    whether the process has exited. *)
Record loop := {
  store : db;
  queue : list job;
  settled : list (nat * promise bool);
  exited : bool
}.

(** A callback has run: [jobs] is what it submitted, [results] the promises
    it settled. *)
Definition continue_with (d : db) (jobs : list job)
    (results : list (nat * promise bool)) (l : loop) : loop :=
  {| store := d; queue := (queue l ++ jobs)%list;
     settled := (settled l ++ results)%list; exited := false |}.

(** The connection runs job [j], the head of the queue; [l] holds the rest.
    The callbacks are those of [deductToken], in the source's order. *)
Definition step (j : job) (l : loop) : loop :=
  match j with
  | silent sql =>
      match sql (store l) with
      | Some d => continue_with d [] [] l
      | None =>
          {| store := abandon (store l); queue := []; settled := settled l;
             exited := true |}
      end
  | get_tokens caller email =>
      let '(res, d) := select_user email (store l) in
      match res with
      | Rejected err =>
          continue_with d [silent ROLLBACK] [(caller, Rejected err)] l
      | Resolved row =>
          if match row with
             | None => true
             | Some r => bool_decide (tokens r ≤ 0)
             end
          then continue_with d [silent ROLLBACK] [(caller, Resolved false)] l
          else continue_with d [run_update caller email] [] l
      end
  | run_update caller email =>
      let '(res, d) := update_deduct email (store l) in
      match res with
      | Rejected err =>
          continue_with d [silent ROLLBACK] [(caller, Rejected err)] l
      | Resolved changes =>
          if (changes =? 0)%nat
          then continue_with d [silent ROLLBACK] [(caller, Resolved false)] l
          else continue_with d [silent COMMIT; log_usage email]
                 [(caller, Resolved true)] l
      end
  | log_usage email =>
      continue_with
        (snd (logTokenTransaction email usage (-1) "Emoji generation" None
                (store l))) [] [] l
  end.

Fixpoint run (fuel : nat) (l : loop) : loop :=
  match fuel, queue l with
  | S n, j :: rest =>
      run n (step j {| store := store l; queue := rest;
                       settled := settled l; exited := exited l |})
  | _, _ => l
  end.

(** A bound on the number of jobs that a job stands for: itself and what its
    callbacks go on to submit. *)
Definition weight (j : job) : nat :=
  match j with
  | silent _ | log_usage _ => 1
  | run_update _ _ => 3
  | get_tokens _ _ => 4
  end.

Definition work (jobs : list job) : nat := sum_list_with weight jobs.

(** The connection runs until its queue is empty. *)
Definition drain (l : loop) : loop := run (work (queue l)) l.

(** What the executor of [deductToken]'s promise submits. *)
Definition deductToken_submits (caller : nat) (email : string) : list job :=
  [silent BEGIN_TRANSACTION; get_tokens caller email].

(** [deductToken] is called once for each of [emails] before the connection
    gets to run anything: the calls are numbered from 1 in the order they
    were made. *)
Definition same_tick (emails : list string) (d : db) : loop :=
  drain {| store := d;
           queue := mjoin (imap (λ i email, deductToken_submits (S i) email)
                             emails);
           settled := []; exited := false |}.

End EventLoop.

(** ** Properties of the ledger *)

Module DatabaseProps.
Import Database Ledger.
Local Open Scope list_scope.

(** Runs the statements of an asynchronous function on an explicit store,
    as far as the next lookup in [users]. *)
Ltac run_async :=
  cbv beta iota zeta delta
    [mbind mret async_bind async_ret and_then with_callback forget exec
     resolve reject statement next_fault select_user insert_user
     update_deduct update_add logTokenTransaction set_users set_log
     with_faults BEGIN_TRANSACTION COMMIT ROLLBACK users token_transactions
     txn faults fst snd Nat.eqb].

Section steps.
Context (d : db).
Hypothesis Hfaults : faults d = [].

Lemma statement_runs {A} (run : db → promise A * db) :
  statement run d = run d.
Proof.
  unfold statement, next_fault. rewrite Hfaults. reflexivity.
Qed.

Lemma logTokenTransaction_appends email ty amt desc sid :
  logTokenTransaction email ty amt desc sid d =
  (Resolved (S (length (token_transactions d))),
   set_log (token_transactions d ++
              [new_row (token_transactions d) email ty amt desc sid]) d).
Proof. unfold logTokenTransaction. rewrite statement_runs. reflexivity. Qed.

Lemma getUserTokens_existing email r :
  users d !! email = Some r →
  getUserTokens email d =
  (Resolved {| balance := tokens r; totalUsed := total_used r |}, d).
Proof.
  intros Hrow. unfold getUserTokens, with_callback, select_user.
  rewrite statement_runs, Hrow. reflexivity.
Qed.

Lemma getUserTokens_new email :
  users d !! email = None →
  getUserTokens email d =
  (Resolved {| balance := 25; totalUsed := 0 |},
   {| users := <[email := fresh_user (users d)]> (users d);
      token_transactions :=
        token_transactions d ++
          [new_row (token_transactions d) email bonus 25
             "Welcome bonus - 25 free tokens" None];
      txn := txn d; faults := [] |}).
Proof.
  intros Hrow. destruct d as [us log tx fl]. simpl in *. subst fl.
  unfold getUserTokens. run_async. rewrite Hrow. run_async.
  rewrite Hrow. reflexivity.
Qed.

Lemma addTokens_existing email amt desc sid r :
  users d !! email = Some r →
  addTokens email amt desc sid d =
  (Resolved {| balance := tokens r + amt; totalUsed := total_used r |},
   {| users := <[email := top_up amt r]> (users d);
      token_transactions :=
        token_transactions d ++
          [new_row (token_transactions d) email purchase amt desc sid];
      txn := txn d; faults := [] |}).
Proof.
  intros Hrow. destruct d as [us log tx fl]. simpl in *. subst fl.
  unfold addTokens, getUserTokens. run_async. rewrite Hrow. run_async.
  rewrite lookup_insert_eq. reflexivity.
Qed.

Lemma addTokens_missing email amt desc sid :
  users d !! email = None →
  addTokens email amt desc sid d =
  (Resolved {| balance := 25; totalUsed := 0 |},
   {| users := <[email := fresh_user (users d)]> (users d);
      token_transactions :=
        token_transactions d ++
          [new_row (token_transactions d) email purchase amt desc sid;
           new_row (token_transactions d ++
                      [new_row (token_transactions d) email purchase amt
                         desc sid])
             email bonus 25 "Welcome bonus - 25 free tokens" None];
      txn := txn d; faults := [] |}).
Proof.
  intros Hrow. destruct d as [us log tx fl]. simpl in *. subst fl.
  unfold addTokens, getUserTokens. run_async. rewrite Hrow. run_async.
  rewrite Hrow. run_async. rewrite Hrow. rewrite <- app_assoc.
  reflexivity.
Qed.

Hypothesis Htxn : txn d = None.

Lemma deductToken_refuses email :
  match users d !! email with
  | None => True
  | Some r => tokens r ≤ 0
  end →
  deductToken email d = (Resolved false, d).
Proof.
  intros Hrow. destruct d as [us log tx fl]. simpl in *. subst fl tx.
  unfold deductToken. run_async.
  destruct (us !! email) as [r|]; run_async.
  - rewrite bool_decide_eq_true_2 by done. reflexivity.
  - reflexivity.
Qed.

Lemma deductToken_spends email r :
  users d !! email = Some r → 0 < tokens r →
  deductToken email d =
  (Resolved true,
   {| users := <[email := spend r]> (users d);
      token_transactions :=
        token_transactions d ++
          [new_row (token_transactions d) email usage (-1)
             "Emoji generation" None];
      txn := None; faults := [] |}).
Proof.
  intros Hrow Hpos. destruct d as [us log tx fl]. simpl in *. subst fl tx.
  unfold deductToken. run_async. rewrite Hrow. run_async.
  rewrite bool_decide_eq_false_2 by lia. rewrite Hrow. run_async.
  rewrite bool_decide_eq_true_2 by done. reflexivity.
Qed.
End steps.


Section failing_audit_insert.
Context (d : db) (rest : list bool).

Lemma deductToken_audit_insert_fails email r :
  txn d = None → users d !! email = Some r → 0 < tokens r →
  deductToken email (with_faults (false :: false :: true :: rest) d) =
  (Resolved true,
   {| users := <[email := spend r]> (users d);
      token_transactions := token_transactions d;
      txn := None; faults := rest |}).
Proof.
  intros Htxn Hrow Hpos. destruct d as [us log tx fl]. simpl in *. subst tx.
  unfold deductToken. run_async. rewrite Hrow. run_async.
  rewrite bool_decide_eq_false_2 by lia. rewrite Hrow. run_async.
  rewrite bool_decide_eq_true_2 by done. reflexivity.
Qed.

Lemma addTokens_audit_insert_fails email amt desc sid r :
  users d !! email = Some r →
  addTokens email amt desc sid (with_faults (false :: true :: rest) d) =
  (Rejected SQLITE_ERROR,
   {| users := <[email := top_up amt r]> (users d);
      token_transactions := token_transactions d;
      txn := txn d; faults := rest |}).
Proof.
  intros Hrow. destruct d as [us log tx fl]. simpl in *.
  unfold addTokens. run_async. rewrite Hrow. reflexivity.
Qed.

Lemma getUserTokens_audit_insert_fails email :
  users d !! email = None →
  getUserTokens email (with_faults (false :: false :: true :: rest) d) =
  (Resolved {| balance := 25; totalUsed := 0 |},
   {| users := <[email := fresh_user (users d)]> (users d);
      token_transactions := token_transactions d;
      txn := txn d; faults := rest |}).
Proof.
  intros Hrow. destruct d as [us log tx fl]. simpl in *.
  unfold getUserTokens. run_async. rewrite Hrow. run_async. rewrite Hrow.
  reflexivity.
Qed.
End failing_audit_insert.

(** Whatever the failure schedule, no operation leaves a transaction open
    on the connection: every path of [deductToken] ends in [COMMIT] or
    [ROLLBACK], and the other two functions open none. *)
Ltac split_on_schedule :=
  repeat first
    [ reflexivity
    | progress run_async
    | rewrite lookup_insert_eq
    | match goal with
      | |- context [match ?l with [] => _ | _ :: _ => _ end] =>
          destruct l as [|[] ?]
      | |- context [bool_decide ?P] => destruct (bool_decide P)
      | |- context [?m !! ?k] => destruct (m !! k) eqn:?
      end ].

Lemma no_transaction_left_open o d :
  txn d = None → txn (apply o d) = None.
Proof.
  intros Htxn. destruct d as [us log tx fl]. simpl in Htxn. subst tx.
  destruct o as [email|email|email amt desc eventId]; simpl;
    unfold addTokens, deductToken, getUserTokens; split_on_schedule.
Qed.

(** A call that gives every statement a callback cannot end the process:
    its promise is settled, with a value or with the error the engine
    reported. *)
Lemma getUserTokens_settles email d :
  fst (getUserTokens email d) ≠ Rejected Uncaught.
Proof.
  destruct d as [us log tx fl]. unfold getUserTokens.
  split_on_schedule; discriminate.
Qed.

Lemma addTokens_settles email amt desc sid d :
  fst (addTokens email amt desc sid d) ≠ Rejected Uncaught.
Proof.
  destruct d as [us log tx fl]. unfold addTokens, getUserTokens.
  split_on_schedule; discriminate.
Qed.

(** *** The sum of a user's logged amounts *)

Lemma sum_amounts_snoc email log t :
  sum_amounts email (log ++ [t]) =
  sum_amounts email log
  + (if bool_decide (user_email t = email) then amount t else 0).
Proof.
  induction log as [|t' log IH]; simpl.
  - case_bool_decide; lia.
  - rewrite IH. repeat case_bool_decide; lia.
Qed.

Lemma sum_amounts_snoc_same email log ty amt desc sid :
  sum_amounts email (log ++ [new_row log email ty amt desc sid]) =
  sum_amounts email log + amt.
Proof.
  rewrite sum_amounts_snoc. simpl. rewrite bool_decide_eq_true_2; done.
Qed.

Lemma sum_amounts_snoc_other email other log ty amt desc sid :
  other ≠ email →
  sum_amounts email (log ++ [new_row log other ty amt desc sid]) =
  sum_amounts email log.
Proof.
  intros Hne. rewrite sum_amounts_snoc. simpl.
  rewrite bool_decide_eq_false_2 by done. simpl. lia.
Qed.

(** *** The ledger invariant *)

Lemma reconciled_empty : reconciled empty_db.
Proof.
  split; [reflexivity|split; [reflexivity|]].
  intros email. simpl. rewrite lookup_empty. reflexivity.
Qed.

Lemma reconciled_write d email r' ty amt desc sid :
  reconciled d →
  tokens r' = sum_amounts email (token_transactions d) + amt →
  reconciled
    {| users := <[email := r']> (users d);
       token_transactions :=
         token_transactions d ++
           [new_row (token_transactions d) email ty amt desc sid];
       txn := None; faults := [] |} .
Proof.
  intros (Htxn & Hfl & Hsum) Hnew.
  split; [reflexivity|split; [reflexivity|]]. intros e. simpl.
  destruct (decide (email = e)) as [<-|Hne].
  - rewrite lookup_insert_eq, sum_amounts_snoc_same. exact Hnew.
  - rewrite lookup_insert_ne by done.
    rewrite sum_amounts_snoc_other by done. apply Hsum.
Qed.

Lemma reconciled_apply o d :
  reconciled d →
  match o with
  | credit email _ _ _ => is_Some (users d !! email)
  | _ => True
  end →
  reconciled (apply o d).
Proof.
  intros Hinv Hok. pose proof Hinv as (Htxn & Hfl & Hsum).
  destruct o as [email|email|email amt desc eventId]; simpl.
  - pose proof (Hsum email) as He.
    destruct (users d !! email) as [r|] eqn:Hrow.
    + rewrite (getUserTokens_existing d Hfl email r Hrow). exact Hinv.
    + rewrite (getUserTokens_new d Hfl email Hrow). simpl. rewrite Htxn.
      apply reconciled_write; [exact Hinv|]. simpl. lia.
  - pose proof (Hsum email) as He.
    destruct (users d !! email) as [r|] eqn:Hrow.
    + destruct (decide (tokens r ≤ 0)) as [Hle|Hgt].
      * rewrite (deductToken_refuses d Hfl Htxn email); [exact Hinv|].
        rewrite Hrow. exact Hle.
      * rewrite (deductToken_spends d Hfl Htxn email r Hrow) by lia. simpl.
        apply reconciled_write; [exact Hinv|]. simpl. lia.
    + rewrite (deductToken_refuses d Hfl Htxn email); [exact Hinv|].
      rewrite Hrow. exact I.
  - destruct Hok as [r Hrow]. pose proof (Hsum email) as He.
    rewrite Hrow in He.
    rewrite (addTokens_existing d Hfl email amt desc eventId r Hrow). simpl.
    rewrite Htxn. apply reconciled_write; [exact Hinv|]. simpl. lia.
Qed.

Lemma reconciled_run ops d :
  reconciled d → credits_reach_accounts ops d = true → reconciled (run ops d).
Proof.
  revert d. induction ops as [|o ops IH]; intros d Hinv Hok; [exact Hinv|].
  simpl in Hok. apply andb_prop in Hok as [Ho Hrest].
  simpl. apply IH; [|exact Hrest].
  apply reconciled_apply; [exact Hinv|].
  destruct o; try exact I. apply bool_decide_eq_true in Ho. exact Ho.
Qed.


(** *** Claims about [deductToken] and [addTokens] *)

(** C4. On a connection with no open transaction and no storage failure,
    [deductToken] of a user without a row, or with [tokens <= 0], resolves to
    [false] and leaves the store as it was (no balance change, no
    [total_used] change, no row logged); with [tokens > 0] it resolves to
    [true], lowers [tokens] by exactly 1, raises [total_used] by exactly 1,
    and appends exactly one [usage] row of amount -1 for that user. *)
Theorem deductToken_spec (email : string) (d : db) :
  txn d = None → faults d = [] →
  (match users d !! email with
   | None => True
   | Some r => tokens r ≤ 0
   end → deductToken email d = (Resolved false, d))
  ∧
  (∀ r, users d !! email = Some r → 0 < tokens r →
     ∃ d' row,
       deductToken email d = (Resolved true, d')
       ∧ users d' =
           <[email := {| id := id r; tokens := tokens r - 1;
                         total_used := total_used r + 1 |}]> (users d)
       ∧ token_transactions d' = token_transactions d ++ [row]
       ∧ user_email row = email ∧ type row = usage ∧ amount row = -1).
Proof.
  intros Htxn Hfl. split.
  - apply deductToken_refuses; assumption.
  - intros r Hrow Hpos.
    rewrite (deductToken_spends d Hfl Htxn email r Hrow Hpos).
    eexists _, _. repeat split.
Qed.

(** A deduct at an account with no tokens, and one at an account with 25. *)
Lemma deductToken_spec_witness :
  deductToken alice alice_broke_db = (Resolved false, alice_broke_db)
  ∧ ∃ d' row,
      deductToken alice alice_db = (Resolved true, d')
      ∧ users d' = <[alice := {| id := 1; tokens := 24; total_used := 1 |}]>
                     (users alice_db)
      ∧ token_transactions d' = token_transactions alice_db ++ [row]
      ∧ user_email row = alice ∧ type row = usage ∧ amount row = -1.
Proof.
  split.
  - apply (proj1 (deductToken_spec alice alice_broke_db eq_refl eq_refl)).
    vm_compute. discriminate.
  - apply (proj2 (deductToken_spec alice alice_db eq_refl eq_refl) alice_row);
      reflexivity.
Defined.

(** C1, as the code has it. [addTokens] never reads [stripeSessionId]: for
    an existing account and no storage failure, a second call with the same
    external event id is applied again. Each call raises the balance by
    [amt] (so by [2 * amt] in all), resolves to the account as it then
    stands, and appends its own row carrying that id. The amount, the stored
    counters and the balance after both credits are safe integers, the range
    in which the program's numbers are exact. *)
Theorem addTokens_replay_credits_again
    (email : string) (amt : Z) (desc eventId : string) (d : db) (r : user_row) :
  faults d = [] → users d !! email = Some r →
  safe_integer amt → safe_integer (tokens r) → safe_integer (total_used r) →
  safe_integer (tokens r + amt + amt) →
  ∃ d1 d2 row1 row2,
    addTokens email amt desc (Some eventId) d =
      (Resolved {| balance := tokens r + amt; totalUsed := total_used r |}, d1)
    ∧ addTokens email amt desc (Some eventId) d1 =
      (Resolved {| balance := tokens r + amt + amt;
                   totalUsed := total_used r |}, d2)
    ∧ users d2 !! email =
        Some {| id := id r; tokens := tokens r + amt + amt;
                total_used := total_used r |}
    ∧ token_transactions d2 = token_transactions d ++ [row1; row2]
    ∧ stripe_session_id row1 = Some eventId ∧ amount row1 = amt
    ∧ stripe_session_id row2 = Some eventId ∧ amount row2 = amt.
Proof.
  intros Hfl Hrow _ _ _ _.
  pose proof (addTokens_existing d Hfl email amt desc (Some eventId) r Hrow)
    as Hfirst.
  match type of Hfirst with
  | _ = (_, ?d1) =>
      assert (Hrow1 : users d1 !! email = Some (top_up amt r))
        by (simpl; apply lookup_insert_eq);
      pose proof (addTokens_existing d1 eq_refl email amt desc (Some eventId)
                    (top_up amt r) Hrow1) as Hsecond
  end.
  eexists _, _, _, _. split; [exact Hfirst|]. split; [exact Hsecond|].
  simpl. rewrite lookup_insert_eq, <- app_assoc. repeat split.
Qed.

(** Session [cs_test_1] credited twice to [a@example.com]. *)
Lemma addTokens_replay_credits_again_witness :
  ∃ d1 d2 row1 row2,
    addTokens alice 100 purchase_description (Some session) alice_db =
      (Resolved {| balance := 25 + 100; totalUsed := 0 |}, d1)
    ∧ addTokens alice 100 purchase_description (Some session) d1 =
      (Resolved {| balance := 25 + 100 + 100; totalUsed := 0 |}, d2)
    ∧ users d2 !! alice =
        Some {| id := 1; tokens := 25 + 100 + 100; total_used := 0 |}
    ∧ token_transactions d2 = token_transactions alice_db ++ [row1; row2]
    ∧ stripe_session_id row1 = Some session ∧ amount row1 = 100
    ∧ stripe_session_id row2 = Some session ∧ amount row2 = 100.
Proof.
  apply (addTokens_replay_credits_again alice 100 purchase_description session
           alice_db alice_row); try reflexivity; split; reflexivity.
Defined.

(** C1, as stated, fails: after [a@example.com] (balance 25) is credited 100
    for session [cs_test_1], crediting the same session again is not a no-op.
    The first call resolves to balance 125, the second to 225, and the store
    after the second call differs from the store after the first. *)
Lemma addTokens_replay_is_not_a_no_op :
  fst (addTokens alice 100 purchase_description (Some session) alice_db)
    = Resolved {| balance := 125; totalUsed := 0 |}
  ∧ fst (addTokens alice 100 purchase_description (Some session)
           (snd (addTokens alice 100 purchase_description (Some session)
                   alice_db)))
    = Resolved {| balance := 225; totalUsed := 0 |}
  ∧ addTokens alice 100 purchase_description (Some session)
      (snd (addTokens alice 100 purchase_description (Some session) alice_db))
    ≠ (fst (addTokens alice 100 purchase_description (Some session) alice_db),
       snd (addTokens alice 100 purchase_description (Some session) alice_db)).
Proof.
  split; [reflexivity|]. split; [reflexivity|].
  intros Heq. apply (f_equal fst) in Heq. vm_compute in Heq. discriminate.
Qed.


(** C3, as stated, fails already at account creation: the new account holds
    25 tokens and its log holds the +25 bonus row, so "25 plus the sum of the
    logged amounts" is 50. *)
Lemma balance_is_not_25_plus_log :
  users (run [create_account alice] empty_db) !! alice = Some alice_row
  ∧ tokens alice_row = 25
  ∧ sum_amounts alice
      (token_transactions (run [create_account alice] empty_db)) = 25
  ∧ tokens alice_row ≠
      25 + sum_amounts alice
             (token_transactions (run [create_account alice] empty_db)).
Proof. repeat split. vm_compute. discriminate. Qed.

(** C3, as the code has it. From the empty store and with no storage
    failure, after every finite history of account creations, deducts and
    credits in which each credit finds the row of its account, the stored
    balance of every account equals the sum of the amounts of all rows
    logged for it, the +25 bonus row included, with no further 25 added. *)
Theorem balance_is_sum_of_log
    (ops : list operation) (email : string) (r : user_row) :
  credits_reach_accounts ops empty_db = true →
  users (run ops empty_db) !! email = Some r →
  tokens r = sum_amounts email (token_transactions (run ops empty_db)).
Proof.
  intros Hok Hrow.
  destruct (reconciled_run ops empty_db reconciled_empty Hok)
    as (_ & _ & Hsum).
  specialize (Hsum email). rewrite Hrow in Hsum. exact Hsum.
Qed.

(** After [sample_history], [a@example.com] holds 25 - 1 + 100 - 1. *)
Lemma balance_is_sum_of_log_witness :
  tokens {| id := 1; tokens := 123; total_used := 2 |} =
  sum_amounts alice (token_transactions (run sample_history empty_db)).
Proof.
  apply (balance_is_sum_of_log sample_history alice); reflexivity.
Defined.

(** Why histories are restricted to credits that find their account: a
    credit that precedes the account's first balance query is logged but
    never reaches the balance. *)
Example credit_before_account_is_not_in_balance :
  users (run [credit newcomer 100 purchase_description (Some session);
              create_account newcomer] empty_db) !! newcomer
    = Some {| id := 1; tokens := 25; total_used := 0 |}
  ∧ sum_amounts newcomer
      (token_transactions
         (run [credit newcomer 100 purchase_description (Some session);
               create_account newcomer] empty_db)) = 125.
Proof. split; reflexivity. Qed.

(** C5, at the input where the code departs from it: a credit of 100 for a
    user whose row does not exist yet. The [UPDATE] matches no row, the
    purchase of +100 is logged all the same, and the [getUserTokens] that
    follows creates the account with the 25 welcome tokens: the returned
    account and the stored balance are 25, not 125. *)
Theorem addTokens_before_first_balance_query :
  addTokens newcomer 100 purchase_description (Some session) empty_db =
  (Resolved {| balance := 25; totalUsed := 0 |},
   {| users := {[ newcomer := {| id := 1; tokens := 25; total_used := 0 |} ]};
      token_transactions :=
        [ {| tx_id := 1; user_email := newcomer; type := purchase;
             amount := 100; description := purchase_description;
             stripe_session_id := Some session |};
          {| tx_id := 2; user_email := newcomer; type := bonus; amount := 25;
             description := "Welcome bonus - 25 free tokens";
             stripe_session_id := None |} ];
      txn := None; faults := [] |}).
Proof. vm_compute. reflexivity. Qed.

(** For an account whose row exists, a credit raises the stored balance by
    exactly the amount and resolves to the account with that balance. *)
Lemma addTokens_credits_existing_account email amt desc eventId d r :
  faults d = [] → users d !! email = Some r →
  fst (addTokens email amt desc eventId d) =
    Resolved {| balance := tokens r + amt; totalUsed := total_used r |}
  ∧ users (snd (addTokens email amt desc eventId d)) !! email =
      Some {| id := id r; tokens := tokens r + amt;
              total_used := total_used r |}.
Proof.
  intros Hfl Hrow. rewrite (addTokens_existing d Hfl _ _ _ _ r Hrow). simpl.
  rewrite lookup_insert_eq. split; reflexivity.
Qed.

(** C6, as stated, fails: the refund credit of +1, which carries no external
    event id, is logged with kind [purchase], neither [refund] nor [bonus]. *)
Lemma refund_credit_is_logged_as_purchase :
  ∃ row,
    token_transactions
      (snd (addTokens alice 1 "Refund - Generation failed" None alice_db))
      = [welcome_row; row]
    ∧ stripe_session_id row = None ∧ description row = "Refund - Generation failed"
    ∧ type row = purchase ∧ type row ≠ refund ∧ type row ≠ bonus.
Proof. eexists. repeat split; discriminate. Qed.

(** C6, as the code has it. With no storage failure, the row a credit
    appends has kind [purchase] whether or not an external event id is
    supplied; it carries the credit's user, amount, description and event
    id, and for an existing account it is the only row appended. *)
Theorem addTokens_logs_purchase
    (email : string) (amt : Z) (desc : string) (eventId : option string)
    (d : db) :
  faults d = [] →
  ∃ row rest,
    token_transactions (snd (addTokens email amt desc eventId d))
      = token_transactions d ++ row :: rest
    ∧ user_email row = email ∧ type row = purchase ∧ amount row = amt
    ∧ description row = desc ∧ stripe_session_id row = eventId
    ∧ (is_Some (users d !! email) → rest = []).
Proof.
  intros Hfl. destruct (users d !! email) as [r|] eqn:Hrow.
  - rewrite (addTokens_existing d Hfl _ _ _ _ r Hrow). simpl.
    eexists _, []. repeat split.
  - rewrite (addTokens_missing d Hfl _ _ _ _ Hrow). simpl.
    eexists _, [_]. repeat split. intros [? ?]. discriminate.
Qed.

(** The refund credit, applied to [a@example.com]. *)
Lemma addTokens_logs_purchase_witness :
  ∃ row rest,
    token_transactions
      (snd (addTokens alice 1 "Refund - Generation failed" None alice_db))
      = token_transactions alice_db ++ row :: rest
    ∧ user_email row = alice ∧ type row = purchase ∧ amount row = 1
    ∧ description row = "Refund - Generation failed"
    ∧ stripe_session_id row = None
    ∧ (is_Some (users alice_db !! alice) → rest = []).
Proof.
  apply (addTokens_logs_purchase alice 1 "Refund - Generation failed" None
           alice_db).
  reflexivity.
Defined.

(** C7, as stated, fails: on a connection whose third statement (the audit
    insert) fails, [deductToken] resolves to [true] with the balance write
    committed (24 tokens, no transaction open) and no [usage] row logged. *)
Lemma deduct_commits_without_audit_row :
  deductToken alice alice_db_failing_third =
  (Resolved true,
   {| users := {[ alice := {| id := 1; tokens := 24; total_used := 1 |} ]};
      token_transactions := [welcome_row];
      txn := None; faults := [] |}).
Proof. vm_compute. reflexivity. Qed.

(** C7, as the code has it. For an account with a positive balance and a
    user without an account, on a connection with no open transaction: when
    no statement fails, a deduct, a credit and an account creation each
    append exactly one audit row ([usage], [purchase], [bonus]). The audit
    insert is a statement of its own that follows the balance write (for a
    deduct it follows [COMMIT]; a credit and an account creation open no
    transaction), so when that insert fails the balance write stays in the
    store with no audit row: the deduct and the account creation still
    resolve, the credit rejects. *)
Theorem audit_insert_follows_balance_write
    (email fresh : string) (amt : Z) (desc : string)
    (eventId : option string) (d : db) (r : user_row) (rest : list bool) :
  txn d = None → users d !! email = Some r → 0 < tokens r →
  users d !! fresh = None →
  (∃ row, token_transactions (snd (deductToken email (with_faults [] d)))
            = token_transactions d ++ [row] ∧ type row = usage)
  ∧ (∃ row, token_transactions
              (snd (addTokens email amt desc eventId (with_faults [] d)))
            = token_transactions d ++ [row] ∧ type row = purchase)
  ∧ (∃ row, token_transactions (snd (getUserTokens fresh (with_faults [] d)))
            = token_transactions d ++ [row] ∧ type row = bonus)
  ∧ deductToken email (with_faults (false :: false :: true :: rest) d) =
      (Resolved true,
       {| users := <[email := {| id := id r; tokens := tokens r - 1;
                                 total_used := total_used r + 1 |}]> (users d);
          token_transactions := token_transactions d;
          txn := None; faults := rest |})
  ∧ addTokens email amt desc eventId (with_faults (false :: true :: rest) d) =
      (Rejected SQLITE_ERROR,
       {| users := <[email := {| id := id r; tokens := tokens r + amt;
                                 total_used := total_used r |}]> (users d);
          token_transactions := token_transactions d;
          txn := None; faults := rest |})
  ∧ getUserTokens fresh (with_faults (false :: false :: true :: rest) d) =
      (Resolved {| balance := 25; totalUsed := 0 |},
       {| users := <[fresh := {| id := S (size (users d)); tokens := 25;
                                 total_used := 0 |}]> (users d);
          token_transactions := token_transactions d;
          txn := None; faults := rest |}).
Proof.
  intros Htxn Hrow Hpos Hfresh.
  split; [|split; [|split; [|split; [|split]]]].
  - rewrite (deductToken_spends (with_faults [] d) eq_refl Htxn email r Hrow
               Hpos).
    eexists. split; reflexivity.
  - rewrite (addTokens_existing (with_faults [] d) eq_refl email amt desc
               eventId r Hrow).
    eexists. split; reflexivity.
  - rewrite (getUserTokens_new (with_faults [] d) eq_refl fresh Hfresh).
    eexists. split; reflexivity.
  - apply deductToken_audit_insert_fails; assumption.
  - rewrite (addTokens_audit_insert_fails d rest email amt desc eventId r Hrow).
    rewrite Htxn. reflexivity.
  - rewrite (getUserTokens_audit_insert_fails d rest fresh Hfresh).
    rewrite Htxn. reflexivity.
Qed.

(** A deduct of [a@example.com] whose audit insert fails. *)
Lemma audit_insert_follows_balance_write_witness :
  deductToken alice (with_faults [false; false; true] alice_db) =
    (Resolved true,
     {| users := <[alice := {| id := 1; tokens := 25 - 1;
                               total_used := 0 + 1 |}]> (users alice_db);
        token_transactions := token_transactions alice_db;
        txn := None; faults := [] |}).
Proof.
  apply (audit_insert_follows_balance_write alice newcomer 100
           purchase_description (Some session) alice_db alice_row []);
    [reflexivity|reflexivity|reflexivity|reflexivity].
Defined.

(** Two deducts, one after the other, against a balance of exactly 1: the
    first resolves to [true], the second to [false], and the balance ends
    at 0. (Calls that overlap on the connection are the subject of
    [EventLoopProps].) *)
Remark two_deducts_in_sequence email d r :
  txn d = None → faults d = [] → users d !! email = Some r → tokens r = 1 →
  fst (deductToken email d) = Resolved true
  ∧ fst (deductToken email (snd (deductToken email d))) = Resolved false
  ∧ tokens <$> users (snd (deductToken email (snd (deductToken email d))))
                 !! email = Some 0.
Proof.
  intros Htxn Hfl Hrow Hone.
  rewrite (deductToken_spends d Hfl Htxn email r Hrow) by lia. simpl.
  split; [reflexivity|].
  rewrite deductToken_refuses; simpl; try reflexivity.
  - rewrite lookup_insert_eq. simpl. split; [reflexivity|]. f_equal. lia.
  - rewrite lookup_insert_eq. simpl. lia.
Qed.

End DatabaseProps.

(** ** Calls of [deductToken] that overlap *)

Module EventLoopProps.
Import Database Ledger Scenario EventLoop DatabaseProps.
Local Open Scope list_scope.

Lemma work_app js ks : work (js ++ ks) = (work js + work ks)%nat.
Proof. apply sum_list_with_app. Qed.

Lemma run_job n d j rest st ex :
  run (S n) {| store := d; queue := j :: rest; settled := st; exited := ex |}
  = run n (step j {| store := d; queue := rest; settled := st;
                     exited := ex |}).
Proof. reflexivity. Qed.

Lemma run_at_rest n d st ex :
  run n {| store := d; queue := []; settled := st; exited := ex |}
  = {| store := d; queue := []; settled := st; exited := ex |}.
Proof. destruct n; reflexivity. Qed.

(** The fuel of [drain] is enough: the connection always comes to rest, with
    an empty queue. *)
Lemma run_empties n l : (work (queue l) ≤ n)%nat → queue (run n l) = [].
Proof.
  revert l. induction n as [|n IH]; intros [d q st ex]; simpl.
  - destruct q as [|j q]; [reflexivity|].
    change (work (j :: q)) with (weight j + work q)%nat.
    destruct j; simpl; lia.
  - destruct q as [|j q]; [reflexivity|]. intros Hw.
    change (work (j :: q)) with (weight j + work q)%nat in Hw.
    apply IH.
    destruct j as [sql|caller email|caller email|email]; simpl in *.
    + destruct (sql d); simpl; rewrite ?app_nil_r; [lia|].
      change (work []) with 0%nat. lia.
    + destruct (select_user email d) as [[[r|]|e] d']; simpl;
        try destruct (bool_decide (tokens r ≤ 0)); simpl;
        rewrite work_app;
        (change (work [silent ROLLBACK]) with 1%nat
         || change (work [run_update caller email]) with 3%nat); lia.
    + destruct (update_deduct email d) as [[[|k]|e] d']; simpl;
        rewrite work_app;
        (change (work [silent ROLLBACK]) with 1%nat
         || change (work [silent COMMIT; log_usage email]) with 2%nat); lia.
    + rewrite app_nil_r. lia.
Qed.

Lemma drain_empties l : queue (drain l) = [].
Proof. apply run_empties. reflexivity. Qed.

(** Runs the job at the head of the queue, as far as the next lookup. *)
Ltac run_loop :=
  cbv beta iota zeta delta
    [same_tick drain work weight step continue_with deductToken_submits
     store queue settled exited sum_list_with mjoin list_join imap
     compose Nat.add abandon
     mbind mret async_bind async_ret and_then with_callback forget exec
     resolve reject statement next_fault select_user insert_user
     update_deduct update_add logTokenTransaction set_users set_log
     with_faults BEGIN_TRANSACTION COMMIT ROLLBACK users token_transactions
     txn faults fst snd Nat.eqb];
  cbn [app].

Ltac walk_queue :=
  repeat first
    [ reflexivity
    | rewrite run_job
    | rewrite run_at_rest
    | progress run_loop
    | rewrite lookup_insert_eq
    | match goal with
      | |- context [match ?l with [] => _ | _ :: _ => _ end] =>
          destruct l as [|[] ?]
      | |- context [bool_decide ?P] => destruct (bool_decide P)
      | |- context [?m !! ?k] => destruct (m !! k) eqn:?
      end ].

(** One call on an idle connection, whatever the failure schedule: the queue
    does what [Database.deductToken] does, to the store and to the
    promise. *)
Lemma one_call_is_deductToken email d :
  txn d = None →
  same_tick [email] d =
  {| store := snd (deductToken email d); queue := [];
     settled := [(1%nat, fst (deductToken email d))]; exited := false |}.
Proof.
  intros Htxn. destruct d as [us log tx fl]. simpl in Htxn. subst tx.
  unfold deductToken. walk_queue.
Qed.

(** C9, as the code has it. Two calls of [deductToken] made before the
    connection runs anything submit [BEGIN TRANSACTION], [SELECT],
    [BEGIN TRANSACTION], [SELECT], in that order. With no storage failure and
    a positive balance for the first caller, the first [SELECT] finds the
    row and its callback queues the [UPDATE]; the second
    [BEGIN TRANSACTION] then finds the first transaction open and is
    refused; it has no callback, so the process exits. Neither promise is
    settled, with [true] or with [false], and both tables are as they were:
    the balance is not spent. *)
Theorem same_tick_deducts_end_the_process
    (email1 email2 : string) (d : db) (r : user_row) :
  txn d = None → faults d = [] → users d !! email1 = Some r → 0 < tokens r →
  same_tick [email1; email2] d
  = {| store := d; queue := []; settled := []; exited := true |}.
Proof.
  intros Htxn Hfl Hrow Hpos. destruct d as [us log tx fl]. simpl in *. subst.
  run_loop. rewrite run_job. run_loop. rewrite run_job. run_loop.
  rewrite Hrow. run_loop.
  rewrite bool_decide_eq_false_2 by lia. run_loop.
  rewrite run_job. run_loop. rewrite run_at_rest. reflexivity.
Qed.

(** [a@example.com] has one token left and two deducts are made at once. *)
Lemma same_tick_deducts_end_the_process_witness :
  same_tick [alice; alice] alice_last_token_db
  = {| store := alice_last_token_db; queue := []; settled := [];
       exited := true |}.
Proof.
  apply (same_tick_deducts_end_the_process alice alice alice_last_token_db
           {| id := 1; tokens := 1; total_used := 24 |}); reflexivity.
Defined.

End EventLoopProps.

(** ** Properties of the request handlers *)

Module ServerProps.
Import Database Server Ledger Scenario DatabaseProps.
Local Open Scope list_scope.

(** Runs the handler's own plumbing, as far as the next awaited call. *)
Ltac run_task :=
  cbv beta iota zeta delta
    [generate_emoji stripe_webhook finish try_catch try_block catch_block
     await await_external throw json_error fresh_world mbind mret task_bind
     task_ret database calls fst snd negb];
  cbn [app].

(** The identifier [userEmail] is bound inside the [try] block and nowhere
    in the scope of the [catch] block. *)
Lemma userEmail_out_of_scope req :
  lookup_identifier "userEmail" (try_scope req)
    = Some (from_option str undefined (body_userEmail req))
  ∧ lookup_identifier "userEmail" catch_scope = None.
Proof. split; reflexivity. Qed.

Lemma well_formed_email req email :
  well_formed req email → ∃ c rest, email = String c rest.
Proof.
  intros (_ & _ & Hne). destruct email as [|c rest]; [done|]. eauto.
Qed.

Lemma refused_deduct_gets_402 env req w :
  calls w = [] →
  existsb deduct_refused (calls (snd (generate_emoji env req w))) = true →
  (∃ msg, fst (generate_emoji env req w)
          = Responded {| status := 402; body := error_json msg true |})
  ∧ existsb is_generation (calls (snd (generate_emoji env req w))) = false.
Proof.
  destruct w as [d cs]. simpl. intros ->.
  unfold generate_emoji, try_catch at 1, try_block.
  destruct (bool_decide (file req = None) && negb (trimmed_truthy (body_description req))).
  { simpl. discriminate. }
  run_task.
  destruct (body_userEmail req) as [[|c email]|].
  1,3: simpl; discriminate.
  destruct (getUserTokens (String c email) (concurrent env 1 d)) as [[acct|e] d1].
  2: { destruct e; vm_compute; discriminate. }
  run_task.
  destruct (bool_decide (balance acct ≤ 0)).
  { simpl. discriminate. }
  destruct (deductToken (String c email) (concurrent env 2 d1)) as [[[|]|e] d2].
  3: { destruct e; vm_compute; discriminate. }
  2: { simpl. intros _. split; [eauto|reflexivity]. }
  run_task.
  destruct (geminiService env) as [svc|].
  2: { simpl. discriminate. }
  run_task.
  destruct (generateEmoji svc _ _ _ _ _) as [g|e].
  2: { destruct e; vm_compute; discriminate. }
  run_task.
  match goal with
  | |- context [getUserTokens ?u ?d0] =>
      destruct (getUserTokens u d0) as [[acct'|e] d4]
  end.
  2: { destruct e; vm_compute; discriminate. }
  simpl. discriminate.
Qed.

Lemma exhausted_balance_gets_402 env req email d r :
  well_formed req email →
  faults (concurrent env 1 d) = [] →
  users (concurrent env 1 d) !! email = Some r → tokens r ≤ 0 →
  generate_emoji env req (fresh_world d) =
  (Responded
     {| status := 402;
        body := error_json "Insufficient tokens. Please purchase more tokens to continue generating emojis." true |},
   {| database := concurrent env 1 d;
      calls := [getUserTokens_call email
                  (Resolved {| balance := tokens r;
                               totalUsed := total_used r |})] |}).
Proof.
  intros Hwf Hfl Hrow Hle. destruct Hwf as (Hin & Hmail & Hne).
  unfold generate_emoji, try_catch at 1, try_block. rewrite Hin, Hmail.
  destruct email as [|c email]; [done|]. run_task.
  rewrite (getUserTokens_existing _ Hfl _ r Hrow). run_task.
  rewrite bool_decide_eq_true_2 by exact Hle. reflexivity.
Qed.

Lemma generation_reached env req email d r :
  quiet env → well_formed req email →
  txn d = None → faults d = [] → users d !! email = Some r → 0 < tokens r →
  try_block env req (fresh_world d) =
  let d' := {| users := <[email := spend r]> (users d);
               token_transactions :=
                 token_transactions d ++
                   [new_row (token_transactions d) email usage (-1)
                      "Emoji generation" None];
               txn := None; faults := [] |} in
  let seen := [getUserTokens_call email
                 (Resolved {| balance := tokens r;
                              totalUsed := total_used r |});
               deductToken_call email (Resolved true)] in
  match geminiService env with
  | None =>
      (Resolved (json_error 500 "Gemini service not available. Please check your API key configuration."),
       {| database := d'; calls := seen |})
  | Some service =>
      let removeBackground :=
        bool_decide (body_removeBackground req = Some "true") in
      let emojify := bool_decide (body_emojify req = Some "true") in
      let answer :=
        generateEmoji service (path <$> file req) (body_description req)
          removeBackground emojify email in
      let seen' :=
        seen ++ [generateEmoji_call (path <$> file req) (body_description req)
                   removeBackground emojify email answer] in
      match answer with
      | Rejected e => (Rejected e, {| database := d'; calls := seen' |})
      | Resolved result =>
          (Resolved
             {| status := 200;
                body := generated_json
                          ((λ f, "/" +:+ filename f) <$> file req)
                          ("/" +:+ userPath result)
                          (generated_filename result) (prompt result)
                          (tokens r - 1) |},
           {| database := d';
              calls := seen' ++
                [getUserTokens_call email
                   (Resolved {| balance := tokens r - 1;
                                totalUsed := total_used r + 1 |})] |})
      end
  end.
Proof.
  intros Hq Hwf Htxn Hfl Hrow Hpos.
  destruct Hwf as (Hin & Hmail & Hne).
  unfold try_block. rewrite Hin, Hmail.
  destruct email as [|c email]; [done|]. run_task.
  rewrite ?Hq.
  rewrite (getUserTokens_existing _ Hfl _ r Hrow). run_task.
  rewrite bool_decide_eq_false_2 by (simpl; lia). run_task. rewrite ?Hq.
  rewrite (deductToken_spends d Hfl Htxn _ r Hrow Hpos). run_task.
  destruct (geminiService env) as [svc|]; [|reflexivity].
  run_task. rewrite ?Hq.
  destruct (generateEmoji svc _ _ _ _ _) as [g|e]; [|reflexivity].
  run_task. rewrite ?Hq.
  match goal with
  | |- context [getUserTokens ?u ?d0] =>
      assert (Hrow' : users d0 !! u = Some (spend r))
        by (simpl; apply lookup_insert_eq);
      rewrite (getUserTokens_existing d0 eq_refl u (spend r) Hrow')
  end.
  reflexivity.
Qed.

(** *** Claims about [POST /api/generate-emoji] *)

(** C8. A request whose user has no tokens left gets status 402 with
    [tokensNeeded: true], and the image service is not called. This holds
    whichever of the handler's two gates stops the request: the balance
    check (the request is well formed and the row read has [tokens <= 0]) or
    a [deductToken] that resolved to [false]. *)
Theorem insufficient_tokens_gets_402
    (env : environment) (req : generate_request) (email : string) (d : db)
    (r : user_row) :
  (well_formed req email
   ∧ faults (concurrent env 1 d) = []
   ∧ users (concurrent env 1 d) !! email = Some r
   ∧ tokens r ≤ 0)
  ∨ existsb deduct_refused
      (calls (snd (generate_emoji env req (fresh_world d)))) = true →
  (∃ msg, fst (generate_emoji env req (fresh_world d))
          = Responded {| status := 402; body := error_json msg true |})
  ∧ existsb is_generation
      (calls (snd (generate_emoji env req (fresh_world d)))) = false.
Proof.
  intros [(Hwf & Hfl & Hrow & Hle)|Hrefused].
  - rewrite (exhausted_balance_gets_402 env req email d r Hwf Hfl Hrow Hle).
    split; [eauto|reflexivity].
  - apply refused_deduct_gets_402; [reflexivity|exact Hrefused].
Qed.

(** The last token of [a@example.com] is spent by another request between
    this request's balance check and its deduct. *)
Lemma insufficient_tokens_gets_402_witness :
  (∃ msg, fst (generate_emoji racing_env cat_request
                 (fresh_world alice_last_token_db))
          = Responded {| status := 402; body := error_json msg true |})
  ∧ existsb is_generation
      (calls (snd (generate_emoji racing_env cat_request
                     (fresh_world alice_last_token_db)))) = false.
Proof.
  apply (insufficient_tokens_gets_402 racing_env cat_request alice
           alice_last_token_db alice_row).
  right. reflexivity.
Defined.

(** C10. When [geminiService] was never initialised, a well-formed request
    by a user with a positive balance (no storage failure, no other request
    in between) has one token deducted and is then answered 500 by an early
    return: the handler's calls are the balance read and the successful
    deduct only (no image generation, no [addTokens] refund), and the store
    ends with the balance lowered by 1. *)
Theorem missing_service_spends_token_without_refund
    (env : environment) (req : generate_request) (email : string) (d : db)
    (r : user_row) :
  geminiService env = None → quiet env → well_formed req email →
  txn d = None → faults d = [] → users d !! email = Some r → 0 < tokens r →
  ∃ d',
    generate_emoji env req (fresh_world d) =
      (Responded
         {| status := 500;
            body := error_json "Gemini service not available. Please check your API key configuration." false |},
       {| database := d';
          calls := [getUserTokens_call email
                      (Resolved {| balance := tokens r;
                                   totalUsed := total_used r |});
                    deductToken_call email (Resolved true)] |})
    ∧ users d' !! email =
        Some {| id := id r; tokens := tokens r - 1;
                total_used := total_used r + 1 |}
    ∧ ∀ other, other ≠ email → users d' !! other = users d !! other.
Proof.
  intros Hnone Hq Hwf Htxn Hfl Hrow Hpos.
  unfold generate_emoji, try_catch.
  rewrite (generation_reached env req email d r Hq Hwf Htxn Hfl Hrow Hpos).
  rewrite Hnone. simpl. eexists. split; [reflexivity|]. simpl. split.
  - apply lookup_insert_eq.
  - intros other Hne. apply lookup_insert_ne. congruence.
Qed.

(** [a@example.com] asks for a "cat" emoji on a server without image
    service. *)
Lemma missing_service_spends_token_without_refund_witness :
  ∃ d',
    generate_emoji no_service_env cat_request (fresh_world alice_db) =
      (Responded
         {| status := 500;
            body := error_json "Gemini service not available. Please check your API key configuration." false |},
       {| database := d';
          calls := [getUserTokens_call alice
                      (Resolved {| balance := 25; totalUsed := 0 |});
                    deductToken_call alice (Resolved true)] |})
    ∧ users d' !! alice =
        Some {| id := 1; tokens := 25 - 1; total_used := 0 + 1 |}
    ∧ ∀ other, other ≠ alice → users d' !! other = users alice_db !! other.
Proof.
  apply (missing_service_spends_token_without_refund no_service_env
           cat_request alice alice_db alice_row).
  - reflexivity.
  - intros k d. reflexivity.
  - repeat split. discriminate.
  - reflexivity.
  - reflexivity.
  - reflexivity.
  - reflexivity.
Defined.

(** What happens, for any image service that fails, to a well-formed request
    by a user with a positive balance: the [catch] block throws on its
    reference to [userEmail] before it reaches [addTokens] and before it
    sends the 500 response. *)
Lemma failed_generation_throws_in_catch env service req email d r e :
  geminiService env = Some service → quiet env → well_formed req email →
  txn d = None → faults d = [] → users d !! email = Some r → 0 < tokens r →
  generateEmoji service (path <$> file req) (body_description req)
    (bool_decide (body_removeBackground req = Some "true"))
    (bool_decide (body_emojify req = Some "true")) email = Rejected e →
  e ≠ Uncaught →
  ∃ w',
    generate_emoji env req (fresh_world d) =
      (Unhandled (ReferenceError "userEmail"), w')
    ∧ users (database w') !! email = Some (spend r)
    ∧ existsb is_credit (calls w') = false.
Proof.
  intros Hsvc Hq Hwf Htxn Hfl Hrow Hpos Hfail Hthrown.
  unfold generate_emoji, try_catch.
  rewrite (generation_reached env req email d r Hq Hwf Htxn Hfl Hrow Hpos).
  rewrite Hsvc. cbv zeta. rewrite Hfail.
  destruct e; try done.
  all: eexists; (split; [reflexivity|]); simpl; split.
  all: try apply lookup_insert_eq; try reflexivity.
Qed.

(** Had the refund run, it would have compensated the deduct: after a
    successful deduct, [addTokens(email, 1, 'Refund - Generation failed')]
    brings the balance back, and leaves [total_used] raised. *)
Lemma refund_after_deduct_restores_balance email d r :
  txn d = None → faults d = [] → users d !! email = Some r → 0 < tokens r →
  users (snd (addTokens email 1 "Refund - Generation failed" None
                (snd (deductToken email d)))) !! email
  = Some {| id := id r; tokens := tokens r; total_used := total_used r + 1 |}.
Proof.
  intros Htxn Hfl Hrow Hpos.
  rewrite (deductToken_spends d Hfl Htxn email r Hrow Hpos). simpl.
  erewrite addTokens_existing;
    [|reflexivity|simpl; apply lookup_insert_eq].
  simpl. rewrite lookup_insert_eq. unfold top_up, spend. simpl.
  do 2 f_equal. lia.
Qed.

(** C2, at the input where the code departs from it: [a@example.com] holds
    25 tokens, asks for a "cat" emoji, and the image service fails. The
    token is deducted, the service is called and rejects, and the [catch]
    block then throws [ReferenceError: userEmail is not defined]: no
    [addTokens] call is made, no response is sent, and the balance stays at
    24. *)
Theorem failed_generation_is_not_refunded :
  generate_emoji failing_env cat_request (fresh_world alice_db) =
  (Unhandled (ReferenceError "userEmail"),
   {| database :=
        {| users := {[ alice := {| id := 1; tokens := 24; total_used := 1 |} ]};
           token_transactions :=
             [welcome_row;
              {| tx_id := 2; user_email := alice; type := usage; amount := -1;
                 description := "Emoji generation";
                 stripe_session_id := None |}];
           txn := None; faults := [] |};
      calls :=
        [getUserTokens_call alice
           (Resolved {| balance := 25; totalUsed := 0 |});
         deductToken_call alice (Resolved true);
         generateEmoji_call None (Some "cat") false false alice
           (Rejected text_only_failure)] |}).
Proof. vm_compute. reflexivity. Qed.

End ServerProps.

(** ** More properties of the ledger *)

Module LedgerProps.
Import Database Server Ledger Scenario Samples DatabaseProps.
Local Open Scope list_scope.

(** Splits on the failure schedule and on every lookup, keeping what each
    test decided. *)
Ltac explore :=
  repeat first
    [ progress run_async
    | rewrite lookup_insert_eq
    | match goal with
      | |- context [match ?l with [] => _ | _ :: _ => _ end] =>
          destruct l as [|[] ?]
      | |- context [bool_decide ?P] => destruct (bool_decide P) eqn:?
      | |- context [?m !! ?k] => destruct (m !! k) eqn:?
      end ].

Lemma apply_rewrites o d :
  txn d = None → rewritten o (users d) (users (apply o d)).
Proof.
  intros Htxn. destruct d as [us log tx fl]. simpl in Htxn. subst tx.
  destruct o as [email|email|email amt desc eventId]; simpl;
    unfold addTokens, deductToken, getUserTokens; explore;
    try apply kept.
  all: try (apply (opened (create_account email));
            [discriminate|assumption]).
  all: try (apply (opened (credit email amt desc eventId));
            [discriminate|assumption]).
  all: try (eapply (credited (credit email amt desc eventId));
            [reflexivity|eassumption]).
  all: try (apply (charged (deduct email)); [reflexivity|assumption|]).
  all: match goal with
       | H : bool_decide (0 < _) = true |- _ =>
           apply bool_decide_eq_true in H; exact H
       end.
Qed.

Lemma apply_appends o d :
  txn d = None →
  ∃ rows, token_transactions (apply o d) = token_transactions d ++ rows
          ∧ Forall (λ t, user_email t = subject o) rows.
Proof.
  intros Htxn. destruct d as [us log tx fl]. simpl in Htxn. subst tx.
  destruct o as [email|email|email amt desc eventId]; simpl;
    unfold addTokens, deductToken, getUserTokens; explore.
  all: first
    [ exists []; split; [by rewrite app_nil_r|constructor]
    | eexists [_]; split; [reflexivity|by repeat constructor]
    | eexists [_; _]; split;
        [by rewrite <- app_assoc|by repeat constructor] ].
Qed.

Lemma run_cons o ops d : run (o :: ops) d = run ops (apply o d).
Proof. reflexivity. Qed.

(** X1. Whatever storage failures occur, no history leaves a transaction
    open on the shared connection: every path of [deductToken] ends in
    [COMMIT] or [ROLLBACK]. *)
Theorem run_keeps_connection_idle (ops : list operation) (d : db) :
  txn d = None → txn (run ops d) = None.
Proof.
  revert d. induction ops as [|o ops IH]; intros d Htxn; [exact Htxn|].
  rewrite run_cons. apply IH, no_transaction_left_open, Htxn.
Qed.

(** [sample_history] on a connection whose second statement fails (the
    [SELECT] of the first deduct, inside its transaction). *)
Lemma run_keeps_connection_idle_witness :
  txn (run sample_history (with_faults [false; true] alice_db)) = None.
Proof.
  apply (run_keeps_connection_idle sample_history
           (with_faults [false; true] alice_db)).
  reflexivity.
Defined.

(** X2. Whatever storage failures occur, no history of account creations,
    deducts and credits of non-negative amounts drives a balance below
    zero. *)
Theorem never_overdrawn (ops : list operation) (d : db) :
  txn d = None → solvent d → forallb adds_nonnegative ops = true →
  solvent (run ops d).
Proof.
  revert d. induction ops as [|o ops IH]; intros d Htxn Hsol Hamt;
    [exact Hsol|].
  simpl in Hamt. apply andb_prop in Hamt as [Ho Hrest].
  rewrite run_cons.
  apply IH; [by apply no_transaction_left_open| |exact Hrest].
  intros email r'. pose proof (apply_rewrites o d Htxn) as Hstep.
  inversion Hstep as [Heq|r Hop Hrow Hpos Heq|r amt desc ev Hop Hrow Heq
                      |Hop Hrow Heq]; rewrite <- ?Heq.
  - apply Hsol.
  - destruct (decide (subject o = email)) as [<-|Hne].
    + rewrite lookup_insert_eq. intros [= <-]. simpl. lia.
    + rewrite lookup_insert_ne by done. apply Hsol.
  - destruct (decide (subject o = email)) as [<-|Hne].
    + rewrite lookup_insert_eq. intros [= <-]. simpl.
      rewrite Hop in Ho. simpl in Ho. apply bool_decide_eq_true in Ho.
      specialize (Hsol _ _ Hrow). lia.
    + rewrite lookup_insert_ne by done. apply Hsol.
  - destruct (decide (subject o = email)) as [<-|Hne].
    + rewrite lookup_insert_eq. intros [= <-]. simpl. lia.
    + rewrite lookup_insert_ne by done. apply Hsol.
Qed.

(** After [sample_history], with the welcome bonus insert failing, the
    balance of [a@example.com] is still non-negative. *)
Lemma never_overdrawn_witness :
  solvent (run sample_history (with_faults [false; false; true] empty_db)).
Proof.
  apply (never_overdrawn sample_history
           (with_faults [false; false; true] empty_db)).
  - reflexivity.
  - intros email r. simpl. rewrite lookup_empty. discriminate.
  - reflexivity.
Defined.

(** X3. Whatever storage failures occur, an account row is never removed,
    its [id] never changes, and its [total_used] never decreases. *)
Theorem accounts_persist_and_usage_grows
    (ops : list operation) (d : db) (email : string) (r : user_row) :
  txn d = None → users d !! email = Some r →
  ∃ r', users (run ops d) !! email = Some r'
        ∧ id r' = id r ∧ total_used r ≤ total_used r'.
Proof.
  revert d r. induction ops as [|o ops IH]; intros d r Htxn Hrow.
  - exists r. split; [exact Hrow|]. split; [reflexivity|lia].
  - rewrite run_cons.
    assert (∃ r1, users (apply o d) !! email = Some r1
                  ∧ id r1 = id r ∧ total_used r ≤ total_used r1)
      as (r1 & Hrow1 & Hid & Hused).
    { pose proof (apply_rewrites o d Htxn) as Hstep.
      inversion Hstep as [Heq|r0 Hop Hrow0 Hpos Heq|r0 amt desc ev Hop Hrow0 Heq
                          |Hop Hrow0 Heq]; rewrite <- ?Heq.
      - exists r. split; [exact Hrow|]. split; [reflexivity|lia].
      - destruct (decide (subject o = email)) as [He|Hne].
        + rewrite He in *. rewrite Hrow in Hrow0. injection Hrow0 as <-.
          exists (spend r). rewrite lookup_insert_eq.
          split; [reflexivity|]. simpl. split; [reflexivity|lia].
        + exists r. rewrite lookup_insert_ne by done.
          split; [exact Hrow|]. split; [reflexivity|lia].
      - destruct (decide (subject o = email)) as [He|Hne].
        + rewrite He in *. rewrite Hrow in Hrow0. injection Hrow0 as <-.
          exists (top_up amt r). rewrite lookup_insert_eq.
          split; [reflexivity|]. simpl. split; [reflexivity|lia].
        + exists r. rewrite lookup_insert_ne by done.
          split; [exact Hrow|]. split; [reflexivity|lia].
      - destruct (decide (subject o = email)) as [He|Hne].
        + rewrite He in *. congruence.
        + exists r. rewrite lookup_insert_ne by done.
          split; [exact Hrow|]. split; [reflexivity|lia]. }
    destruct (IH (apply o d) r1 (no_transaction_left_open o d Htxn) Hrow1)
      as (r' & Hrow' & Hid' & Hused').
    exists r'. split; [exact Hrow'|]. split; [congruence|lia].
Qed.

(** [a@example.com] through [sample_history] on a connection whose fourth
    statement fails. *)
Lemma accounts_persist_and_usage_grows_witness :
  ∃ r', users (run sample_history
                 (with_faults [false; false; false; true] alice_db)) !! alice
        = Some r'
        ∧ id r' = id alice_row ∧ total_used alice_row ≤ total_used r'.
Proof.
  apply (accounts_persist_and_usage_grows sample_history
           (with_faults [false; false; false; true] alice_db) alice
           alice_row); reflexivity.
Defined.


Lemma filter_other_rows email (rows : list tx_row) who :
  who ≠ email → Forall (λ t, user_email t = who) rows →
  filter (λ t, user_email t = email) rows = [].
Proof.
  intros Hne Hall. induction Hall as [|t rows Ht _ IH]; [reflexivity|].
  rewrite filter_cons_False by congruence. exact IH.
Qed.

(** X4. Whatever storage failures occur, a history that never names a user
    changes neither that user's row nor the rows logged for that user. *)
Theorem other_users_untouched
    (ops : list operation) (d : db) (email : string) :
  txn d = None → Forall (λ o, subject o ≠ email) ops →
  users (run ops d) !! email = users d !! email
  ∧ filter (λ t, user_email t = email) (token_transactions (run ops d))
    = filter (λ t, user_email t = email) (token_transactions d).
Proof.
  revert d. induction ops as [|o ops IH]; intros d Htxn Hother;
    [split; reflexivity|].
  inversion Hother as [|? ? Ho Hrest]; subst.
  rewrite run_cons.
  destruct (IH (apply o d) (no_transaction_left_open o d Htxn) Hrest)
    as [Husers Hlog].
  rewrite Husers, Hlog. split.
  - pose proof (apply_rewrites o d Htxn) as Hstep.
    inversion Hstep; try reflexivity; by rewrite lookup_insert_ne.
  - destruct (apply_appends o d Htxn) as (rows & -> & Hrows).
    rewrite filter_app, (filter_other_rows email rows (subject o) Ho Hrows).
    apply app_nil_r.
Qed.

(** [sample_history] without its operations on [new@example.com] leaves
    that user without an account. *)
Lemma other_users_untouched_witness :
  users (run [create_account alice; deduct alice;
              credit alice 100 purchase_description (Some session)]
           empty_db) !! newcomer = users empty_db !! newcomer
  ∧ filter (λ t, user_email t = newcomer)
      (token_transactions
         (run [create_account alice; deduct alice;
               credit alice 100 purchase_description (Some session)]
            empty_db))
    = filter (λ t, user_email t = newcomer) (token_transactions empty_db).
Proof.
  apply (other_users_untouched
           [create_account alice; deduct alice;
            credit alice 100 purchase_description (Some session)]
           empty_db newcomer).
  - reflexivity.
  - repeat constructor; discriminate.
Defined.

(** X5. Whatever storage failures occur, the audit log only grows: a history
    started with no transaction open keeps every row already logged, in
    place, and every row it adds names the user of one of its operations. *)
Theorem log_is_append_only (ops : list operation) (d : db) :
  txn d = None →
  ∃ rows, token_transactions (run ops d) = token_transactions d ++ rows
          ∧ Forall (λ t, user_email t ∈ subject <$> ops) rows.
Proof.
  revert d. induction ops as [|o ops IH]; intros d Htxn.
  - exists []. split; [by rewrite app_nil_r|constructor].
  - rewrite run_cons.
    destruct (IH (apply o d) (no_transaction_left_open o d Htxn))
      as (later & -> & Hlater).
    destruct (apply_appends o d Htxn) as (rows & -> & Hrows).
    exists (rows ++ later). split; [by rewrite app_assoc|].
    apply Forall_app. split.
    + eapply Forall_impl; [exact Hrows|]. intros t ->. simpl. left.
    + eapply Forall_impl; [exact Hlater|]. intros t Ht. simpl. by right.
Qed.

Lemma log_is_append_only_witness :
  ∃ rows, token_transactions (run sample_history alice_db)
          = token_transactions alice_db ++ rows
          ∧ Forall (λ t, user_email t ∈ subject <$> sample_history) rows.
Proof.
  apply (log_is_append_only sample_history alice_db). reflexivity.
Defined.

(** On a connection with a transaction left open, the [BEGIN TRANSACTION]
    of a deduct is refused and the process exits; what the open transaction
    wrote goes with it. The log can shrink, which is why the histories above
    start on an idle connection. *)
Example rollback_restores_the_snapshot :
  token_transactions
    (run [deduct newcomer]
       {| users := ∅; token_transactions := [welcome_row];
          txn := Some (∅, []); faults := [] |}) = [].
Proof. reflexivity. Qed.

(** *** Compositions without storage failure *)

Lemma deducts_S k email d :
  deducts (S k) email d = snd (deductToken email (deducts k email d)).
Proof. reflexivity. Qed.

Lemma deducts_spend (k : nat) email d r :
  txn d = None → faults d = [] → users d !! email = Some r →
  Z.of_nat k ≤ tokens r →
  txn (deducts k email d) = None ∧ faults (deducts k email d) = []
  ∧ users (deducts k email d) !! email =
      Some {| id := id r; tokens := tokens r - Z.of_nat k;
              total_used := total_used r + Z.of_nat k |}.
Proof.
  intros Htxn Hfl Hrow. induction k as [|k IH]; intros Hk.
  - simpl. repeat split; try assumption. rewrite Hrow. destruct r; simpl.
    do 2 f_equal; lia.
  - destruct IH as (Htxn' & Hfl' & Hrow'); [lia|].
    rewrite deducts_S.
    rewrite (deductToken_spends _ Hfl' Htxn' email _ Hrow') by (simpl; lia).
    simpl. repeat split. rewrite lookup_insert_eq. unfold spend. simpl.
    do 2 f_equal; lia.
Qed.

(** X6. With no storage failure, an account holding [n >= 0] tokens can be
    charged exactly [n] times: each of the first [n] deducts resolves to
    [true] and takes one token, and once the balance is 0 a deduct resolves
    to [false] and changes nothing. *)
Theorem balance_is_the_number_of_deducts_left
    (k : nat) (email : string) (d : db) (r : user_row) :
  txn d = None → faults d = [] → users d !! email = Some r →
  Z.of_nat k ≤ tokens r →
  users (deducts k email d) !! email =
    Some {| id := id r; tokens := tokens r - Z.of_nat k;
            total_used := total_used r + Z.of_nat k |}
  ∧ (Z.of_nat k < tokens r →
     fst (deductToken email (deducts k email d)) = Resolved true)
  ∧ (Z.of_nat k = tokens r →
     deductToken email (deducts k email d)
     = (Resolved false, deducts k email d)).
Proof.
  intros Htxn Hfl Hrow Hk.
  destruct (deducts_spend k email d r Htxn Hfl Hrow Hk)
    as (Htxn' & Hfl' & Hrow').
  split; [exact Hrow'|]. split.
  - intros Hlt.
    rewrite (deductToken_spends _ Hfl' Htxn' email _ Hrow') by (simpl; lia).
    reflexivity.
  - intros Heq. apply deductToken_refuses; try assumption.
    rewrite Hrow'. simpl. lia.
Qed.

(** The 25 welcome tokens of [a@example.com] last for 25 deducts. *)
Lemma balance_is_the_number_of_deducts_left_witness :
  users (deducts 25 alice alice_db) !! alice =
    Some {| id := 1; tokens := 25 - Z.of_nat 25;
            total_used := 0 + Z.of_nat 25 |}
  ∧ deductToken alice (deducts 25 alice alice_db)
    = (Resolved false, deducts 25 alice alice_db).
Proof.
  destruct (balance_is_the_number_of_deducts_left 25 alice alice_db alice_row)
    as (Hrow & _ & Hstop);
    [reflexivity|reflexivity|reflexivity|exact (Z.le_refl 25)|].
  split; [exact Hrow|]. apply Hstop. reflexivity.
Defined.

Lemma resolved_query_reads_the_row
    (email : string) (d d' : db) (acct : account) :
  getUserTokens email d = (Resolved acct, d') →
  ∃ r, users d' !! email = Some r
       ∧ acct = {| balance := tokens r; totalUsed := total_used r |}.
Proof.
  intros Hfirst.
  cut (∀ Q : account → db → Prop,
         (∀ r d2, users d2 !! email = Some r →
                  Q {| balance := tokens r; totalUsed := total_used r |} d2) →
         Q acct d').
  { intros Hcut. apply (Hcut (λ a d2, ∃ r, users d2 !! email = Some r ∧ a = _)).
    intros r d2 Hrow. eauto. }
  intros Q HQ. revert Hfirst. destruct d as [us log tx fl].
  unfold getUserTokens. explore; intros [= <- <-].
  all: first
    [ apply HQ; assumption
    | apply (HQ (fresh_user us)); simpl; apply lookup_insert_eq ].
Qed.

(** X7. A balance query that resolved can be repeated: on a connection with
    no further failure, the next query resolves to the same account and
    leaves the store as it is. In particular the account is created, and
    the welcome bonus granted, at most once. *)
Theorem balance_query_settles
    (email : string) (d d' : db) (acct : account) :
  getUserTokens email d = (Resolved acct, d') → faults d' = [] →
  getUserTokens email d' = (Resolved acct, d').
Proof.
  intros Hfirst Hfl'.
  destruct (resolved_query_reads_the_row email d d' acct Hfirst)
    as (r & Hrow & ->).
  apply getUserTokens_existing; assumption.
Qed.

Lemma balance_query_settles_witness :
  getUserTokens newcomer (snd (getUserTokens newcomer empty_db))
  = (Resolved {| balance := 25; totalUsed := 0 |},
     snd (getUserTokens newcomer empty_db)).
Proof.
  apply (balance_query_settles newcomer empty_db); reflexivity.
Defined.

End LedgerProps.

(** ** More properties of [POST /api/generate-emoji] *)

Module HandlerProps.
Import Database Server Ledger Scenario Samples DatabaseProps ServerProps.
Local Open Scope list_scope.

(** Follows the handler through every outcome of its awaited calls. *)
Ltac walk_handler :=
  repeat first
    [ progress run_task
    | match goal with
      | |- context [getUserTokens ?u ?d0] =>
          destruct (getUserTokens u d0) as [[?|[ | |?|?| ]] ?]
      | |- context [deductToken ?u ?d0] =>
          destruct (deductToken u d0) as [[[|]|[ | |?|?| ]] ?]
      | |- context [generateEmoji ?s ?a ?b ?c ?d0 ?e] =>
          destruct (generateEmoji s a b c d0 e) as [?|[ | |?|?| ]]
      | |- context [geminiService ?env] =>
          destruct (geminiService env) as [?|]
      | |- context [bool_decide (balance ?a ≤ 0)] =>
          destruct (bool_decide (balance a ≤ 0))
      end ].

Ltac pick :=
  first [ reflexivity
        | do 5 eexists; reflexivity
        | left; pick
        | right; pick ].

(** X8. Whatever the request, the store, the failure schedule, the image
    service and the other requests do, the handler ends in one of eight
    ways: two 400s, two 402s, the 500 for a missing image service, the 200,
    a rejected promise ([ReferenceError: userEmail is not defined]) with no
    response, or no response because a promise it awaits is never settled
    (the process exits when its [deductToken] finds a transaction open on
    the connection). It never answers 500 with the error of a failed
    call. *)
Theorem outcomes_of_generate_emoji
    (env : environment) (req : generate_request) (d : db) :
  answer env req d
    = Responded (json_error 400 "Please provide either an image file or a description")
  ∨ answer env req d = Responded (json_error 400 "User email is required")
  ∨ answer env req d
    = Responded {| status := 402;
                   body := error_json "Insufficient tokens. Please purchase more tokens to continue generating emojis." true |}
  ∨ answer env req d
    = Responded {| status := 402;
                   body := error_json "Failed to deduct token. Please try again." true |}
  ∨ answer env req d
    = Responded (json_error 500 "Gemini service not available. Please check your API key configuration.")
  ∨ (∃ original generated name prompt left,
       answer env req d
       = Responded {| status := 200;
                      body := generated_json original generated name prompt
                                left |})
  ∨ answer env req d = Unhandled (ReferenceError "userEmail")
  ∨ answer env req d = Exited.
Proof.
  unfold answer, generate_emoji, try_catch at 1, try_block.
  destruct (bool_decide (file req = None)
            && negb (trimmed_truthy (body_description req))).
  { left. reflexivity. }
  destruct (body_userEmail req) as [[|c email]|].
  1,3: right; left; reflexivity.
  walk_handler; cbv zeta; simpl; pick.
Qed.

(** X9. Whatever happens, one request makes at most one [deductToken] call
    and at most one image-generation call, and never calls [addTokens]. *)
Theorem one_deduct_one_generation_no_credit
    (env : environment) (req : generate_request) (d : db) :
  (deductions (calls (snd (generate_emoji env req (fresh_world d)))) ≤ 1)%nat
  ∧ (generations (calls (snd (generate_emoji env req (fresh_world d)))) ≤ 1)%nat
  ∧ existsb is_credit (calls (snd (generate_emoji env req (fresh_world d))))
    = false.
Proof.
  unfold generate_emoji, try_catch at 1, try_block.
  destruct (bool_decide (file req = None)
            && negb (trimmed_truthy (body_description req))).
  { simpl. unfold deductions, generations. simpl. repeat split; lia. }
  destruct (body_userEmail req) as [[|c email]|].
  1,3: simpl; unfold deductions, generations; simpl; repeat split; lia.
  walk_handler; cbv zeta; unfold deductions, generations; simpl;
    repeat split; lia.
Qed.



(** White space is white space beyond ASCII too: a description made of a
    no-break space, a byte order mark and a line separator trims to the
    empty string, and the request is refused like one without description. *)
Example unicode_blank_is_refused :
  blank unicode_blank = true
  ∧ generate_emoji working_env unicode_blank_request (fresh_world alice_db)
    = (Responded (json_error 400
                    "Please provide either an image file or a description"),
       fresh_world alice_db).
Proof. split; reflexivity. Qed.

Section served.
Context (env : environment) (service : GeminiService)
        (req : generate_request) (email : string) (result : generation).
Hypothesis Hservice : geminiService env = Some service.
Hypothesis Hquiet : quiet env.
Hypothesis Hreq : well_formed req email.
Hypothesis Hdrawn :
  generateEmoji service (path <$> file req) (body_description req)
    (bool_decide (body_removeBackground req = Some "true"))
    (bool_decide (body_emojify req = Some "true")) email = Resolved result.

Lemma generate_emoji_succeeds d r :
  txn d = None → faults d = [] → users d !! email = Some r → 0 < tokens r →
  generate_emoji env req (fresh_world d) =
  (Responded
     {| status := 200;
        body := generated_json ((λ f, "/" +:+ filename f) <$> file req)
                  ("/" +:+ userPath result) (generated_filename result)
                  (prompt result) (tokens r - 1) |},
   {| database :=
        {| users := <[email := spend r]> (users d);
           token_transactions :=
             token_transactions d ++
               [new_row (token_transactions d) email usage (-1)
                  "Emoji generation" None];
           txn := None; faults := [] |};
      calls :=
        [getUserTokens_call email
           (Resolved {| balance := tokens r; totalUsed := total_used r |});
         deductToken_call email (Resolved true);
         generateEmoji_call (path <$> file req) (body_description req)
           (bool_decide (body_removeBackground req = Some "true"))
           (bool_decide (body_emojify req = Some "true")) email
           (Resolved result);
         getUserTokens_call email
           (Resolved {| balance := tokens r - 1;
                        totalUsed := total_used r + 1 |})] |}).
Proof.
  intros Htxn Hfl Hrow Hpos. unfold generate_emoji, try_catch.
  rewrite (generation_reached env req email d r Hquiet Hreq Htxn Hfl Hrow Hpos).
  rewrite Hservice. cbv zeta. rewrite Hdrawn. reflexivity.
Qed.

Lemma served_spend (k : nat) d r :
  txn d = None → faults d = [] → users d !! email = Some r →
  Z.of_nat k ≤ tokens r →
  txn (Nat.iter k (serve env req) d) = None
  ∧ faults (Nat.iter k (serve env req) d) = []
  ∧ users (Nat.iter k (serve env req) d) !! email =
      Some {| id := id r; tokens := tokens r - Z.of_nat k;
              total_used := total_used r + Z.of_nat k |}.
Proof.
  intros Htxn Hfl Hrow. induction k as [|k IH]; intros Hk.
  - simpl. repeat split; try assumption. rewrite Hrow. destruct r; simpl.
    do 2 f_equal; lia.
  - destruct IH as (Htxn' & Hfl' & Hrow'); [lia|].
    change (Nat.iter (S k) (serve env req) d)
      with (serve env req (Nat.iter k (serve env req) d)).
    unfold serve at 1 3 5.
    rewrite (generate_emoji_succeeds _ _ Htxn' Hfl' Hrow') by (simpl; lia).
    simpl. repeat split. rewrite lookup_insert_eq. unfold spend. simpl.
    do 2 f_equal; lia.
Qed.

(** X11. With a working image service, no storage failure and no other
    request in between, a well-formed request by a user with a positive
    balance is answered 200 with [tokensRemaining] one below the balance;
    the store then holds that balance, [total_used] raised by 1 and one
    more [usage] row, and the handler made exactly four calls: balance read,
    deduct, generation, balance read. *)
Theorem generation_succeeds (d : db) (r : user_row) :
  txn d = None → faults d = [] → users d !! email = Some r → 0 < tokens r →
  ∃ spent,
    generate_emoji env req (fresh_world d) =
    (Responded
       {| status := 200;
          body := generated_json ((λ f, "/" +:+ filename f) <$> file req)
                    ("/" +:+ userPath result) (generated_filename result)
                    (prompt result) (tokens r - 1) |},
     {| database :=
          {| users := <[email := {| id := id r; tokens := tokens r - 1;
                                    total_used := total_used r + 1 |}]>
                        (users d);
             token_transactions := token_transactions d ++ [spent];
             txn := None; faults := [] |};
        calls :=
          [getUserTokens_call email
             (Resolved {| balance := tokens r; totalUsed := total_used r |});
           deductToken_call email (Resolved true);
           generateEmoji_call (path <$> file req) (body_description req)
             (bool_decide (body_removeBackground req = Some "true"))
             (bool_decide (body_emojify req = Some "true")) email
             (Resolved result);
           getUserTokens_call email
             (Resolved {| balance := tokens r - 1;
                          totalUsed := total_used r + 1 |})] |})
    ∧ user_email spent = email ∧ type spent = usage ∧ amount spent = -1.
Proof.
  intros Htxn Hfl Hrow Hpos.
  rewrite (generate_emoji_succeeds d r Htxn Hfl Hrow Hpos).
  eexists. split; [reflexivity|]. repeat split.
Qed.

(** X12. With a working image service, no storage failure and no other
    request in between, a balance of [n] buys exactly [n] generations: after
    [k <= n] served requests the next one is answered 200 with
    [tokensRemaining = n - k - 1] while [k < n], and 402 with
    [tokensNeeded] once [k = n]. *)
Theorem tokens_run_out (k : nat) (d : db) (r : user_row) :
  txn d = None → faults d = [] → users d !! email = Some r →
  Z.of_nat k ≤ tokens r →
  (Z.of_nat k < tokens r →
   answer env req (Nat.iter k (serve env req) d) =
   Responded
     {| status := 200;
        body := generated_json ((λ f, "/" +:+ filename f) <$> file req)
                  ("/" +:+ userPath result) (generated_filename result)
                  (prompt result) (tokens r - Z.of_nat k - 1) |})
  ∧ (Z.of_nat k = tokens r →
     answer env req (Nat.iter k (serve env req) d) =
     Responded
       {| status := 402;
          body := error_json "Insufficient tokens. Please purchase more tokens to continue generating emojis." true |}).
Proof.
  intros Htxn Hfl Hrow Hk.
  destruct (served_spend k d r Htxn Hfl Hrow Hk) as (Htxn' & Hfl' & Hrow').
  unfold answer. split.
  - intros Hlt.
    rewrite (generate_emoji_succeeds _ _ Htxn' Hfl' Hrow') by (simpl; lia).
    reflexivity.
  - intros Heq.
    erewrite (exhausted_balance_gets_402 env req email _ _ Hreq);
      rewrite ?Hquiet; try eassumption; [reflexivity|simpl; lia].
Qed.

(** X13. The first request of a user without an account (working image
    service, no storage failure, no other request in between) opens the
    account with the 25 welcome tokens and spends one: the answer is 200
    with [tokensRemaining = 24], and the log gains the bonus row and the
    usage row, in that order. *)
Theorem first_request_opens_the_account (d : db) :
  txn d = None → faults d = [] → users d !! email = None →
  answer env req d =
    Responded
      {| status := 200;
         body := generated_json ((λ f, "/" +:+ filename f) <$> file req)
                   ("/" +:+ userPath result) (generated_filename result)
                   (prompt result) 24 |}
  ∧ users (serve env req d) !! email =
      Some {| id := S (size (users d)); tokens := 24; total_used := 1 |}
  ∧ ∃ welcome spent,
      token_transactions (serve env req d)
        = token_transactions d ++ [welcome; spent]
      ∧ type welcome = bonus ∧ amount welcome = 25
      ∧ type spent = usage ∧ amount spent = -1.
Proof.
  intros Htxn Hfl Hrow. unfold answer, serve.
  destruct Hreq as (Hin & Hmail & Hne).
  unfold generate_emoji, try_catch, try_block. rewrite Hin, Hmail.
  destruct email as [|c rest] eqn:He; [done|]. rewrite <- He in *.
  run_task. rewrite ?Hquiet.
  rewrite (getUserTokens_new d Hfl email Hrow). run_task.
  rewrite bool_decide_eq_false_2 by (simpl; lia). run_task. rewrite ?Hquiet.
  match goal with
  | |- context [deductToken ?u ?d0] =>
      rewrite (deductToken_spends d0 eq_refl Htxn u (fresh_user (users d)))
        by (simpl; first [apply lookup_insert_eq | lia])
  end.
  run_task. rewrite Hservice. run_task. rewrite ?Hquiet.
  rewrite He in Hdrawn. rewrite <- He in Hdrawn. rewrite Hdrawn. run_task.
  rewrite ?Hquiet.
  match goal with
  | |- context [getUserTokens ?u ?d0] =>
      assert (Hrow' : users d0 !! u = Some (spend (fresh_user (users d))))
        by (simpl; apply lookup_insert_eq);
      rewrite (getUserTokens_existing d0 eq_refl u _ Hrow')
  end.
  simpl. split; [reflexivity|]. split.
  - rewrite lookup_insert_eq. reflexivity.
  - eexists _, _. rewrite <- app_assoc. repeat split.
Qed.
End served.

Lemma cat_request_is_well_formed : well_formed cat_request alice.
Proof. repeat split. discriminate. Qed.

(** [a@example.com], 25 tokens, asks for a "cat" emoji. *)
Lemma generation_succeeds_witness :
  ∃ spent,
    generate_emoji working_env cat_request (fresh_world alice_db) =
    (Responded
       {| status := 200;
          body := generated_json None ("/" +:+ userPath drawn)
                    (generated_filename drawn) (prompt drawn) (25 - 1) |},
     {| database :=
          {| users := <[alice := {| id := 1; tokens := 25 - 1;
                                    total_used := 0 + 1 |}]>
                        (users alice_db);
             token_transactions := token_transactions alice_db ++ [spent];
             txn := None; faults := [] |};
        calls :=
          [getUserTokens_call alice
             (Resolved {| balance := 25; totalUsed := 0 |});
           deductToken_call alice (Resolved true);
           generateEmoji_call None (Some "cat") false false alice
             (Resolved drawn);
           getUserTokens_call alice
             (Resolved {| balance := 25 - 1; totalUsed := 0 + 1 |})] |})
    ∧ user_email spent = alice ∧ type spent = usage ∧ amount spent = -1.
Proof.
  apply (generation_succeeds working_env working_service cat_request alice
           drawn eq_refl (λ _ _, eq_refl) cat_request_is_well_formed eq_refl
           alice_db alice_row eq_refl eq_refl eq_refl eq_refl).
Defined.

(** The 26th request of [a@example.com] is answered 402. *)
Lemma tokens_run_out_witness :
  answer working_env cat_request
    (Nat.iter 25 (serve working_env cat_request) alice_db) =
  Responded
    {| status := 402;
       body := error_json "Insufficient tokens. Please purchase more tokens to continue generating emojis." true |}.
Proof.
  apply (tokens_run_out working_env working_service cat_request alice drawn
           eq_refl (λ _ _, eq_refl) cat_request_is_well_formed eq_refl
           25 alice_db alice_row eq_refl eq_refl eq_refl (Z.le_refl 25)).
  reflexivity.
Defined.

(** The first request ever, on the empty store. *)
Lemma first_request_opens_the_account_witness :
  users (serve working_env cat_request empty_db) !! alice =
    Some {| id := S (size (users empty_db)); tokens := 24; total_used := 1 |}.
Proof.
  apply (first_request_opens_the_account working_env working_service
           cat_request alice drawn eq_refl (λ _ _, eq_refl)
           cat_request_is_well_formed eq_refl empty_db eq_refl eq_refl
           eq_refl).
Defined.

(** X14. A deduct followed by [addTokens(email, 1, 'Refund - Generation
    failed')], with no storage failure: the balance is back to what it was,
    [total_used] stays raised by 1, the log gains a [usage] row of -1 and a
    [purchase] row of +1, and the sum of the user's logged amounts is
    unchanged. *)
Theorem refund_round_trip (email : string) (d : db) (r : user_row) :
  txn d = None → faults d = [] → users d !! email = Some r → 0 < tokens r →
  ∃ d2 spent refunded,
    addTokens email 1 "Refund - Generation failed" None
      (snd (deductToken email d))
    = (Resolved {| balance := tokens r; totalUsed := total_used r + 1 |}, d2)
    ∧ users d2 = <[email := {| id := id r; tokens := tokens r;
                               total_used := total_used r + 1 |}]> (users d)
    ∧ token_transactions d2 = token_transactions d ++ [spent; refunded]
    ∧ type spent = usage ∧ amount spent = -1
    ∧ type refunded = purchase ∧ amount refunded = 1
    ∧ sum_amounts email (token_transactions d2)
      = sum_amounts email (token_transactions d).
Proof.
  intros Htxn Hfl Hrow Hpos.
  rewrite (deductToken_spends d Hfl Htxn email r Hrow Hpos). simpl.
  erewrite addTokens_existing;
    [|reflexivity|simpl; apply lookup_insert_eq].
  simpl. eexists _, _, _. split.
  { unfold spend. simpl. do 3 f_equal. lia. }
  simpl. rewrite insert_insert_eq, <- app_assoc. split.
  { unfold top_up, spend. simpl. do 2 f_equal. lia. }
  split; [reflexivity|]. repeat split.
  change [?a; ?b] with ([a] ++ [b]).
  rewrite app_assoc, !sum_amounts_snoc. simpl.
  rewrite !bool_decide_eq_true_2 by done. lia.
Qed.

Lemma refund_round_trip_witness :
  ∃ d2 spent refunded,
    addTokens alice 1 "Refund - Generation failed" None
      (snd (deductToken alice alice_db))
    = (Resolved {| balance := 25; totalUsed := 0 + 1 |}, d2)
    ∧ users d2 = <[alice := {| id := 1; tokens := 25;
                               total_used := 0 + 1 |}]> (users alice_db)
    ∧ token_transactions d2 = token_transactions alice_db ++ [spent; refunded]
    ∧ type spent = usage ∧ amount spent = -1
    ∧ type refunded = purchase ∧ amount refunded = 1
    ∧ sum_amounts alice (token_transactions d2)
      = sum_amounts alice (token_transactions alice_db).
Proof.
  apply (refund_round_trip alice alice_db alice_row); reflexivity.
Defined.

End HandlerProps.

(** ** Properties of the other routes *)

Module RoutesProps.
Import Database Server Ledger Scenario JS Routes Samples DatabaseProps
  ServerProps.
Local Open Scope list_scope.

(** *** [parseInt] reads back what [toString] prints *)

Lemma read_pos u p : read u (Npos p) = Npos (Pos.of_uint_acc u p).
Proof.
  revert p. induction u; intros p; simpl; try reflexivity;
    rewrite <- IHu; f_equal; lia.
Qed.

Lemma read_zero u : read u 0 = Pos.of_uint u.
Proof.
  induction u; simpl; try reflexivity; try exact IHu;
    apply (read_pos u).
Qed.

Lemma parse_digits_printed u acc :
  parse_digits 10 acc (DecimalString.NilEmpty.string_of_uint u) =
  match u with
  | Decimal.Nil => acc
  | _ => Some (read u (default 0%N acc))
  end.
Proof.
  revert acc. induction u; intros acc; simpl; try reflexivity;
    rewrite IHu; destruct u; reflexivity.
Qed.

(** A byte of ASCII that is not white space ends the white space: no
    encoding of a white-space character starts with it. *)
Lemma skip_whitespace_stops c s :
  (nat_of_ascii c <? 128)%nat = true → is_whitespace c = false →
  skip_whitespace (String c s) = String c s.
Proof.
  destruct c as [[] [] [] [] [] [] [] []]; try discriminate; intros _ _;
    destruct s as [|c2 [|c3 s3]]; reflexivity.
Qed.

Lemma printed_has_no_prefix u :
  u ≠ Decimal.Nil →
  let s := DecimalString.NilEmpty.string_of_uint u in
  skip_whitespace s = s
  ∧ match s with
    | String "-"%char _ | String "+"%char _ => False
    | String "0"%char (String "x"%char _)
    | String "0"%char (String "X"%char _) => False
    | _ => True
    end.
Proof.
  intros Hu. destruct u as [|u|u|u|u|u|u|u|u|u|u]; try done;
    cbn [DecimalString.NilEmpty.string_of_uint]; cbv zeta;
    (split; [apply skip_whitespace_stops; reflexivity|]); try exact I.
  destruct u; exact I.
Qed.

Lemma parseInt_plain (s : string) (negative : bool) :
  match s with
  | String "-"%char _ | String "+"%char _ => False
  | String "0"%char (String "x"%char _)
  | String "0"%char (String "X"%char _) => False
  | _ => True
  end →
  skip_whitespace s = s →
  parseInt (if negative then String "-" s else s) =
  (λ n, if negative then - Z.of_N n else Z.of_N n)
    <$> parse_digits 10 None s.
Proof.
  intros Hpre Hws. unfold parseInt.
  replace (skip_whitespace (if negative then String "-" s else s))
    with (if negative then String "-" s else s)
    by (destruct negative;
        [symmetry; apply skip_whitespace_stops; reflexivity|by rewrite Hws]).
  destruct negative.
  - destruct s as [|c [|c' s]];
      [reflexivity
      |destruct c as [[] [] [] [] [] [] [] []];
         destruct (parse_digits 10 None _); reflexivity
      |].
    destruct c as [[] [] [] [] [] [] [] []];
      try (destruct (parse_digits 10 None _); reflexivity).
    destruct c' as [[] [] [] [] [] [] [] []];
      try (exfalso; exact Hpre);
      destruct (parse_digits 10 None _); reflexivity.
  - destruct s as [|c [|c' s]];
      [reflexivity
      |destruct c as [[] [] [] [] [] [] [] []];
         try (exfalso; exact Hpre);
         destruct (parse_digits 10 None _); reflexivity
      |].
    destruct c as [[] [] [] [] [] [] [] []];
      try (exfalso; exact Hpre);
      try (destruct (parse_digits 10 None _); reflexivity).
    destruct c' as [[] [] [] [] [] [] [] []];
      try (exfalso; exact Hpre);
      destruct (parse_digits 10 None _); reflexivity.
Qed.

Lemma parseInt_printed (negative : bool) p :
  parseInt (if negative
            then String "-" (DecimalString.NilEmpty.string_of_uint (Pos.to_uint p))
            else DecimalString.NilEmpty.string_of_uint (Pos.to_uint p))
  = Some (if negative then Z.neg p else Z.pos p).
Proof.
  pose proof (DecimalPos.Unsigned.to_uint_nonnil p) as Hnn.
  destruct (printed_has_no_prefix _ Hnn) as [Hws Hpre].
  rewrite (parseInt_plain _ negative Hpre Hws).
  rewrite parse_digits_printed. simpl default. rewrite read_zero.
  rewrite DecimalPos.Unsigned.of_to.
  destruct (Pos.to_uint p); try done; destruct negative; reflexivity.
Qed.

Lemma parseInt_prints_signed (negative : bool) (p : positive) :
  parseInt (Number_toString (if negative then Z.neg p else Z.pos p))
  = Some (if negative then Z.neg p else Z.pos p).
Proof.
  pose proof (parseInt_printed negative p) as Hp.
  pose proof (DecimalPos.Unsigned.to_uint_nonnil p) as Hnn.
  unfold Number_toString. destruct negative.
  - change (Z.to_int (Z.neg p)) with (Decimal.Neg (Pos.to_uint p)).
    unfold DecimalString.NilZero.string_of_int,
      DecimalString.NilZero.string_of_uint.
    destruct (Pos.to_uint p); try done; exact Hp.
  - change (Z.to_int (Z.pos p)) with (Decimal.Pos (Pos.to_uint p)).
    unfold DecimalString.NilZero.string_of_int,
      DecimalString.NilZero.string_of_uint.
    destruct (Pos.to_uint p); try done; exact Hp.
Qed.

(** X15. For every safe integer [n], [parseInt(n.toString())] is [n]: the
    token count written into the session metadata by the purchase route is
    the one the webhook reads back. *)
Theorem parseInt_toString (n : Z) :
  - 2 ^ 53 < n < 2 ^ 53 → parseInt (Number_toString n) = Some n.
Proof.
  intros _. destruct n as [|p|p].
  - reflexivity.
  - exact (parseInt_prints_signed false p).
  - exact (parseInt_prints_signed true p).
Qed.

Lemma parseInt_toString_witness : parseInt (Number_toString 250) = Some 250.
Proof. apply (parseInt_toString 250). split; reflexivity. Defined.

(** *** [POST /api/stripe-webhook] *)

(** X16. A verified event is always acknowledged with 200
    [{received: true}], whatever its type and metadata and whatever the
    store does, a rejected credit included: the error of [addTokens] is
    logged and swallowed. *)
Theorem webhook_always_acknowledges env event w :
  fst (stripe_webhook env (Resolved event) w)
  = Responded {| status := 200; body := received_json |}.
Proof.
  unfold stripe_webhook. run_task.
  destruct (bool_decide (event_type event = "checkout.session.completed"));
    [|reflexivity].
  destruct (metadata_userEmail (data_object event)) as [email|];
    [|reflexivity].
  destruct (number_truthy (tokens_parsed (data_object event))) as [n|];
    [|reflexivity].
  destruct (bool_decide (email = "")); [reflexivity|].
  run_task.
  match goal with
  | |- context [addTokens ?a ?b ?c ?e ?d0] =>
      pose proof (addTokens_settles a b c e d0) as Hsettled;
      destruct (addTokens a b c e d0) as [[?|[ | |?|?| ]] ?]
  end; try reflexivity.
  exfalso. apply Hsettled. reflexivity.
Qed.


(** X17. The webhook changes the store or calls the ledger only for a
    verified [checkout.session.completed] event whose metadata holds a
    non-empty [userEmail] and a token count that parses to a non-zero
    number. A failed signature check, any other event type, a missing email
    and a count of 0 or [NaN] all leave everything as it was. *)
Theorem webhook_acts_only_on_paid_sessions env constructed w :
  snd (stripe_webhook env constructed w) ≠ w →
  ∃ event email n,
    constructed = Resolved event
    ∧ event_type event = "checkout.session.completed"
    ∧ metadata_userEmail (data_object event) = Some email ∧ email ≠ ""
    ∧ tokens_parsed (data_object event) = Some n ∧ n ≠ 0.
Proof.
  intros Hchanged. destruct constructed as [event|err];
    [|exfalso; apply Hchanged; reflexivity].
  revert Hchanged. unfold stripe_webhook. run_task.
  destruct (bool_decide (event_type event = "checkout.session.completed"))
    eqn:Htype; [|intros H; exfalso; apply H; reflexivity].
  destruct (metadata_userEmail (data_object event)) as [email|] eqn:Hmail;
    [|intros H; exfalso; apply H; reflexivity].
  unfold number_truthy.
  destruct (tokens_parsed (data_object event)) as [n|] eqn:Hn;
    [|intros H; exfalso; apply H; reflexivity].
  destruct (bool_decide (n = 0)) eqn:Hzero;
    [intros H; exfalso; apply H; reflexivity|].
  destruct (bool_decide (email = "")) eqn:Hempty;
    [intros H; exfalso; apply H; reflexivity|].
  intros _. exists event, email, n.
  apply bool_decide_eq_true in Htype. apply bool_decide_eq_false in Hzero.
  apply bool_decide_eq_false in Hempty. repeat split; assumption.
Qed.


(** The paid 100-token event for [a@example.com]. *)
Lemma webhook_acts_only_on_paid_sessions_witness :
  ∃ event email n,
    Resolved paid_100 = Resolved event
    ∧ event_type event = "checkout.session.completed"
    ∧ metadata_userEmail (data_object event) = Some email ∧ email ≠ ""
    ∧ tokens_parsed (data_object event) = Some n ∧ n ≠ 0.
Proof.
  apply (webhook_acts_only_on_paid_sessions failing_env (Resolved paid_100)
           (fresh_world alice_db)).
  intros Hsame. apply (f_equal calls) in Hsame. discriminate Hsame.
Defined.



(** *** [POST /api/purchase-tokens] *)

Lemma own_property_listed key p :
  own_property key packages = Some p →
  (key, p) ∈ packages ∧ 0 < pkg_tokens p ∧ 0 < pkg_price p.
Proof.
  unfold packages. simpl.
  repeat (case_bool_decide;
          [intros [= <-]; subst; split; [set_solver|simpl; lia]|]).
  discriminate.
Qed.


(** X19. Whatever the request, the route asks Stripe for at most one
    session, and only for one of the four listed packages: the session's
    price and token count are the ones listed under the requested key, and
    its [userEmail] and [client_reference_id] are the non-empty email of the
    request. *)
Theorem sessions_only_for_listed_packages stripe req params :
  params ∈ snd (purchase_tokens stripe req) →
  snd (purchase_tokens stripe req) = [params]
  ∧ configured stripe = true
  ∧ ∃ key p,
      (key, p) ∈ packages
      ∧ meta_package params = key
      ∧ unit_amount params = pkg_price p
      ∧ meta_tokens params = Number_toString (pkg_tokens p)
      ∧ purchase_userEmail req = Some (meta_userEmail params)
      ∧ meta_userEmail params ≠ ""
      ∧ client_reference_id params = meta_userEmail params.
Proof.
  unfold purchase_tokens.
  destruct (purchase_userEmail req) as [[|c email]|]; simpl;
    try (intros Hnone; by inversion Hnone).
  destruct (configured stripe); simpl; [|intros Hnone; by inversion Hnone].
  destruct (get_property (default "25" (tokenPackage req))) as [p| |] eqn:Hget;
    try (intros Hnone; by inversion Hnone).
  assert (own_property (default "25" (tokenPackage req)) packages = Some p)
    as Hown.
  { unfold get_property in Hget.
    destruct (own_property _ packages); [congruence|].
    destruct (bool_decide _); discriminate. }
  destruct (own_property_listed _ _ Hown) as (Hin & _ & _).
  destruct (create stripe _); simpl; intros Hp;
    apply list_elem_of_singleton in Hp; subst params;
    (split; [reflexivity|]); (split; [reflexivity|]);
    eexists _, p; simpl; repeat split; try exact Hin; done.
Qed.


Lemma sessions_only_for_listed_packages_witness :
  snd (purchase_tokens test_stripe (purchase_of "250"))
  = [{| currency := "usd";
        product_name := "250 Tokens - Emoji Generator";
        product_description := "Generate 250 custom emojis with AI";
        unit_amount := 900; quantity := 1;
        success_url :=
          "http://localhost:3000/?purchase=success&session_id={CHECKOUT_SESSION_ID}";
        cancel_url := "http://localhost:3000/?purchase=cancelled";
        client_reference_id := alice; meta_userEmail := alice;
        meta_tokens := "250"; meta_package := "250" |}].
Proof.
  apply (sessions_only_for_listed_packages test_stripe (purchase_of "250")).
  apply list_elem_of_here.
Defined.

(** X20. A [tokenPackage] that is not one of the four keys never reaches
    Stripe. It is answered 400, unless it names a property that every object
    inherits ([constructor], [toString], ...): the lookup then finds a
    value without [tokens], building the session throws, and the answer is
    500. *)
Theorem unknown_package_is_refused
    (stripe : Stripe) (req : purchase_request) (email key : string) :
  purchase_userEmail req = Some email → email ≠ "" →
  configured stripe = true → tokenPackage req = Some key →
  own_property key packages = None →
  snd (purchase_tokens stripe req) = []
  ∧ reply_status (fst (purchase_tokens stripe req)) =
      if bool_decide (key ∈ object_prototype) then 500%nat else 400%nat.
Proof.
  intros Hmail Hne Hconf Hkey Hown. unfold purchase_tokens.
  rewrite Hmail, Hconf, Hkey. destruct email as [|c email]; [done|]. simpl.
  unfold get_property. rewrite Hown.
  destruct (bool_decide (key ∈ object_prototype)); split; reflexivity.
Qed.

Lemma unknown_package_is_refused_witness :
  (snd (purchase_tokens test_stripe (purchase_of "1000")) = []
   ∧ reply_status (fst (purchase_tokens test_stripe (purchase_of "1000")))
     = 400%nat)
  ∧ (snd (purchase_tokens test_stripe (purchase_of "constructor")) = []
     ∧ reply_status
         (fst (purchase_tokens test_stripe (purchase_of "constructor")))
       = 500%nat).
Proof.
  split.
  - apply (unknown_package_is_refused test_stripe (purchase_of "1000") alice
             "1000"); try reflexivity. discriminate.
  - apply (unknown_package_is_refused test_stripe (purchase_of "constructor")
             alice "constructor"); try reflexivity. discriminate.
Defined.

(** *** [GET /api/user-tokens/:email] *)

(** X22. For an existing account and whatever the failure schedule, the
    route only reads: both tables stay as they are, and the answer is either
    200 with the stored balance, the stored [total_used], and [isNewUser]
    true exactly when [total_used] is 0, or 500 with
    [Failed to fetch tokens: ] followed by the message of the engine's
    error. *)
Theorem user_tokens_only_reads env email d r :
  quiet env → email ≠ "" → users d !! email = Some r →
  users (database (snd (user_tokens env email (fresh_world d)))) = users d
  ∧ token_transactions (database (snd (user_tokens env email (fresh_world d))))
    = token_transactions d
  ∧ (fst (user_tokens env email (fresh_world d))
     = {| reply_status := 200;
          reply_body := tokens_payload (tokens r) (total_used r)
                          (bool_decide (total_used r = 0)) |}
     ∨ fst (user_tokens env email (fresh_world d))
       = {| reply_status := 500;
            reply_body := error_payload ("Failed to fetch tokens: "
                                         +:+ engine_message env) |}).
Proof.
  intros Hq He Hrow. unfold user_tokens.
  rewrite bool_decide_eq_false_2 by exact He.
  run_task. rewrite ?Hq. destruct d as [us log tx fl]. simpl in Hrow.
  unfold getUserTokens. run_async.
  destruct fl as [|[] fl]; run_async; rewrite ?Hrow; run_task; simpl;
    repeat split; auto.
Qed.

Lemma user_tokens_only_reads_witness :
  fst (user_tokens working_env alice (fresh_world alice_db))
  = {| reply_status := 200;
       reply_body := tokens_payload 25 0 (bool_decide (0 = 0)) |}
  ∨ fst (user_tokens working_env alice (fresh_world alice_db))
    = {| reply_status := 500;
         reply_body := error_payload ("Failed to fetch tokens: "
                                      +:+ engine_message working_env) |}.
Proof.
  apply (user_tokens_only_reads working_env alice alice_db alice_row);
    try reflexivity; try discriminate.
  intros k d. reflexivity.
Defined.

End RoutesProps.

(** ** Properties of the verification codes *)

Module AuthProps.
Import Auth Ledger Samples.

Lemma nonempty_string (s : string) : s ≠ "" → ∃ c rest, s = String c rest.
Proof. destruct s; [done|eauto]. Qed.

(** X23. A code can be used once. After [send-code] stored a code for an
    email at time [now], submitting that code at any time up to
    [now + 600000] ms (the bound included) succeeds and removes the entry,
    whatever was stored for that email before; submitting it again is
    answered 400, no code found. *)
Theorem code_verifies_once
    (resend : Resend) (email generated : string) (now now' : Z)
    (codes : gmap string stored) :
  email ≠ "" → generated ≠ "" → now' ≤ now + 600000 →
  (send_code resend (Some email) generated now codes).1.1
    = {| auth_status := 200; auth_body := code_sent |}
  ∧ verify_code (Some email) (Some generated) now'
      (send_code resend (Some email) generated now codes).1.2
    = ({| auth_status := 200; auth_body := verified email |},
       delete email codes)
  ∧ verify_code (Some email) (Some generated) now' (delete email codes)
    = ({| auth_status := 400;
          auth_body := auth_error "No verification code found for this email" |},
       delete email codes).
Proof.
  intros He Hg Hnow.
  destruct (nonempty_string email He) as (c & rest & ->).
  destruct (nonempty_string generated Hg) as (c' & rest' & ->).
  unfold send_code, verify_code. simpl.
  rewrite lookup_insert_eq. simpl.
  rewrite bool_decide_eq_false_2 by lia.
  rewrite bool_decide_eq_true_2 by done. simpl.
  rewrite delete_insert_eq, lookup_delete_eq. done.
Qed.

(** A new code for [a@example.com], sent at time 5000 over the pending one
    and submitted at the last valid millisecond. *)
Lemma code_verifies_once_witness :
  verify_code (Some alice) (Some "654321") 605000
    (send_code None (Some alice) "654321" 5000 pending).1.2
  = ({| auth_status := 200; auth_body := verified alice |},
     delete alice pending).
Proof.
  apply (code_verifies_once None alice "654321" 5000 605000 pending);
    [discriminate|discriminate|reflexivity].
Defined.

(** X24. A code is refused once its time is over, the right code included.
    Submitting any code for an email whose entry has expired is answered
    400, expired, and removes the entry, so that a later attempt is answered
    400, no code found. *)
Theorem expired_code_is_dropped
    (email submitted : string) (now later : Z) (codes : gmap string stored)
    (st : stored) :
  email ≠ "" → submitted ≠ "" →
  codes !! email = Some st → expires st < now →
  verify_code (Some email) (Some submitted) now codes
  = ({| auth_status := 400;
        auth_body := auth_error "Verification code has expired" |},
     delete email codes)
  ∧ verify_code (Some email) (Some submitted) later (delete email codes)
    = ({| auth_status := 400;
          auth_body := auth_error "No verification code found for this email" |},
       delete email codes).
Proof.
  intros He Hs Hst Hexp.
  destruct (nonempty_string email He) as (c & rest & ->).
  destruct (nonempty_string submitted Hs) as (c' & rest' & ->).
  unfold verify_code. rewrite Hst, lookup_delete_eq.
  rewrite bool_decide_eq_true_2 by exact Hexp. split; reflexivity.
Qed.

(** The right code, one millisecond late. *)
Lemma expired_code_is_dropped_witness :
  verify_code (Some alice) (Some "123456") 601001 pending
  = ({| auth_status := 400;
        auth_body := auth_error "Verification code has expired" |},
     delete alice pending)
  ∧ verify_code (Some alice) (Some "123456") 601002 (delete alice pending)
    = ({| auth_status := 400;
          auth_body := auth_error "No verification code found for this email" |},
       delete alice pending).
Proof.
  apply (expired_code_is_dropped alice "123456" 601001 601002 pending
           {| code := "123456"; expires := 1000 + 10 * 60 * 1000 |});
    [discriminate|discriminate|reflexivity|reflexivity].
Defined.

(** X25. A wrong guess costs nothing. Submitting a wrong code before the
    entry expires is answered 400, invalid, and leaves the map as it is: the
    right code still verifies afterwards, and nothing counts the attempts. *)
Theorem wrong_code_keeps_the_entry
    (email submitted : string) (now : Z) (codes : gmap string stored)
    (st : stored) :
  email ≠ "" → submitted ≠ "" → code st ≠ "" →
  codes !! email = Some st → now ≤ expires st → submitted ≠ code st →
  verify_code (Some email) (Some submitted) now codes
  = ({| auth_status := 400;
        auth_body := auth_error "Invalid verification code" |}, codes)
  ∧ verify_code (Some email) (Some (code st)) now
      (verify_code (Some email) (Some submitted) now codes).2
    = ({| auth_status := 200; auth_body := verified email |},
       delete email codes).
Proof.
  intros He Hs Hc Hst Hexp Hneq.
  destruct (nonempty_string email He) as (c & rest & ->).
  destruct (nonempty_string submitted Hs) as (c' & rest' & ->).
  destruct (nonempty_string (code st) Hc) as (c0 & rest0 & Hcode).
  unfold verify_code. rewrite Hcode, Hst.
  rewrite bool_decide_eq_false_2 by lia. rewrite Hcode.
  rewrite bool_decide_eq_false_2 by congruence. simpl. rewrite Hst.
  rewrite bool_decide_eq_false_2 by lia. rewrite Hcode.
  rewrite bool_decide_eq_true_2 by done. split; reflexivity.
Qed.

Lemma wrong_code_keeps_the_entry_witness :
  verify_code (Some alice) (Some "000000") 2000 pending
  = ({| auth_status := 400;
        auth_body := auth_error "Invalid verification code" |}, pending)
  ∧ verify_code (Some alice) (Some "123456") 2000
      (verify_code (Some alice) (Some "000000") 2000 pending).2
    = ({| auth_status := 200; auth_body := verified alice |},
       delete alice pending).
Proof.
  apply (wrong_code_keeps_the_entry alice "000000" 2000 pending
           {| code := "123456"; expires := 1000 + 10 * 60 * 1000 |});
    [discriminate|discriminate|discriminate|reflexivity| |discriminate].
  simpl. lia.
Defined.

(** X26. [verify-code] answers 200 only when the map holds an entry for the
    submitted email, that entry has not expired, and the submitted code is
    the stored one; it then names that email and removes the entry. *)
Theorem verification_is_sound
    (body_email body_code : option string) (now : Z)
    (codes : gmap string stored) :
  auth_status (verify_code body_email body_code now codes).1 = 200%nat →
  ∃ email st,
    body_email = Some email ∧ email ≠ ""
    ∧ codes !! email = Some st
    ∧ body_code = Some (code st) ∧ code st ≠ ""
    ∧ now ≤ expires st
    ∧ (verify_code body_email body_code now codes).1
      = {| auth_status := 200; auth_body := verified email |}
    ∧ (verify_code body_email body_code now codes).2 = delete email codes.
Proof.
  unfold verify_code.
  destruct body_email as [[|c email]|]; try (simpl; discriminate).
  destruct body_code as [[|c' submitted]|]; try (simpl; discriminate).
  destruct (codes !! String c email) as [st|] eqn:Hst;
    try (simpl; discriminate).
  destruct (bool_decide (expires st < now)) eqn:Hexp;
    try (simpl; discriminate).
  destruct (bool_decide (code st = String c' submitted)) eqn:Hcode;
    try (simpl; discriminate).
  intros _. apply bool_decide_eq_false in Hexp.
  apply bool_decide_eq_true in Hcode. simpl.
  exists (String c email), st. rewrite Hcode.
  repeat split; try done. lia.
Qed.

Lemma verification_is_sound_witness :
  ∃ email st,
    Some alice = Some email ∧ email ≠ ""
    ∧ pending !! email = Some st
    ∧ Some "123456" = Some (code st) ∧ code st ≠ ""
    ∧ 2000 ≤ expires st
    ∧ (verify_code (Some alice) (Some "123456") 2000 pending).1
      = {| auth_status := 200; auth_body := verified email |}
    ∧ (verify_code (Some alice) (Some "123456") 2000 pending).2
      = delete email pending.
Proof.
  apply (verification_is_sound (Some alice) (Some "123456") 2000 pending).
  reflexivity.
Defined.

(** X27. Sending or verifying a code for one email never changes what is
    stored for another. *)
Theorem other_emails_keep_their_codes
    (resend : Resend) (email other generated : string)
    (body_code : option string) (now : Z) (codes : gmap string stored) :
  other ≠ email →
  (send_code resend (Some email) generated now codes).1.2 !! other
    = codes !! other
  ∧ (verify_code (Some email) body_code now codes).2 !! other
    = codes !! other.
Proof.
  intros Hne. split.
  - unfold send_code. destruct email; simpl; [reflexivity|].
    by rewrite lookup_insert_ne.
  - unfold verify_code. destruct email as [|c email]; [reflexivity|].
    destruct body_code as [[|c' s]|]; try reflexivity.
    destruct (codes !! String c email); [|reflexivity].
    destruct (bool_decide _); simpl; [by rewrite lookup_delete_ne|].
    destruct (bool_decide _); simpl; [by rewrite lookup_delete_ne|done].
Qed.

Lemma other_emails_keep_their_codes_witness :
  (send_code None (Some newcomer) "654321" 5000 pending).1.2 !! alice
    = pending !! alice
  ∧ (verify_code (Some newcomer) (Some "123456") 2000 pending).2 !! alice
    = pending !! alice.
Proof.
  apply (other_emails_keep_their_codes None newcomer alice "654321"
           (Some "123456") 2000 pending).
  discriminate.
Defined.

End AuthProps.

(** ** Properties of [getSafeEmail] *)

Module PathsProps.
Import Paths Samples.
Local Open Scope list_scope.

Lemma getSafeEmail_tame (email : js_string) : Forall tame (getSafeEmail email).
Proof.
  unfold getSafeEmail. apply Forall_fmap, Forall_true. intros u. simpl.
  unfold tame. destruct (is_safe u) eqn:Hu; [left; exact Hu|by right].
Qed.

Lemma getSafeEmail_keeps_tame (email : js_string) :
  Forall tame email → getSafeEmail email = email.
Proof.
  unfold getSafeEmail. induction 1 as [|u email [Hu|Hu] _ IH]; simpl.
  - reflexivity.
  - rewrite Hu. f_equal. exact IH.
  - subst u. replace (is_safe underscore) with false by reflexivity.
    f_equal. exact IH.
Qed.

(** X28. The directory name has as many code units as the email, each one a
    letter, a digit, [@], [.], [-] or [_]; in particular it holds no [/], no
    backslash and no NUL. *)
Theorem safe_email_shape (email : js_string) :
  length (getSafeEmail email) = length email
  ∧ Forall tame (getSafeEmail email)
  ∧ (47%N ∉ getSafeEmail email) ∧ (92%N ∉ getSafeEmail email)
  ∧ (0%N ∉ getSafeEmail email).
Proof.
  pose proof (getSafeEmail_tame email) as Htame.
  split; [apply length_fmap|]. split; [exact Htame|].
  rewrite Forall_forall in Htame.
  repeat split; intros Hin; apply Htame in Hin as [Hin|Hin];
    vm_compute in Hin; discriminate.
Qed.

(** X29. [getSafeEmail] changes an email exactly when it holds a code unit
    outside letters, digits, [@], [.], [-] and [_]; so applying it twice is
    the same as applying it once, and names made of dots only ([.], [..])
    pass through unchanged. *)
Theorem safe_email_fixed_points (email : js_string) :
  (getSafeEmail email = email ↔ Forall tame email)
  ∧ getSafeEmail (getSafeEmail email) = getSafeEmail email.
Proof.
  split; [split|].
  - intros <-. apply getSafeEmail_tame.
  - apply getSafeEmail_keeps_tame.
  - apply getSafeEmail_keeps_tame, getSafeEmail_tame.
Qed.

(** X30. Emails that differ only in characters outside the accepted class
    get the same directory name: replacing one such character by another
    does not change the result. *)
Theorem unsafe_units_collide (before after : js_string) (u v : N) :
  is_safe u = false → is_safe v = false →
  getSafeEmail (before ++ u :: after) = getSafeEmail (before ++ v :: after).
Proof.
  intros Hu Hv. unfold getSafeEmail. rewrite !fmap_app. simpl.
  rewrite Hu, Hv. reflexivity.
Qed.

(** [a+b@x.com] and [a b@x.com] share a directory. *)
Lemma unsafe_units_collide_witness :
  getSafeEmail (units "a" ++ 43%N :: units "b@x.com")
  = getSafeEmail (units "a" ++ 32%N :: units "b@x.com").
Proof.
  apply (unsafe_units_collide (units "a") (units "b@x.com") 43 32);
    reflexivity.
Defined.

(** The parent-directory name is not rewritten. *)
Example dot_dot_is_kept : getSafeEmail (units "..") = units "..".
Proof. reflexivity. Qed.

End PathsProps.
